(** * feedie: an IRC bot announcing RSS feeds

    A shallow embedding of [feedie.py] (classes [PeriodicExecutor], [_Feeds],
    [ReconnectStrategy] and the message-queue consumer of [feedie]) and of the
    configuration records of [config.py], with the properties of the
    feed cache, the change detector, the reconnect backoff and the delivery
    queue stated and proved over it.

    Conventions.
    - Python exceptions are values of [exception]; a call that may raise
      returns a [result].
    - Methods of [_Feeds] that read or write [self.cachedFeeds],
      [self.lastRequest], the bot's message queue or standard output are
      functions [world -> result A * world]: state written before an
      exception is raised stays written.
    - The outside world (feedparser, the clock, requests) is an explicit
      environment [env] of answers.
    - [time.time()] and [random.random()] are rationals; strings are ASCII
      strings. *)

From Stdlib Require Import ZArith QArith Lia Lqa Ascii String.
From stdpp Require Import base tactics option list gmap strings.

Close Scope Q_scope.
Open Scope Z_scope.
Open Scope string_scope.
Open Scope list_scope.

(** ** Python values and exceptions *)

Inductive exception : Type :=
  | KeyError
  | IndexError
  | TypeError
  | UnboundLocalError
  | AttributeError
  | SGMLParseError            (* sgmllib.SGMLParseError *)
  | socket_timeout            (* socket.timeout *)
  | requests_ConnectionError
  | requests_HTTPError
  | requests_Timeout
  | ServerNotConnectedError   (* irc.client.ServerNotConnectedError *)
  | AssertionError
  | OtherException (name : string).

#[global] Instance exception_eq_dec : EqDecision exception.
Proof. solve_decision. Defined.

Inductive result (A : Type) : Type :=
  | Returns (a : A)
  | Raises (e : exception).
Arguments Returns {A} a.
Arguments Raises {A} e.

(** ** The [str] methods the program uses *)

Module Str.

(** [c.isspace()] on ASCII: TAB..CR, FS..US and the blank. *)
Definition isspace (c : ascii) : bool :=
  let n := nat_of_ascii c in
  ((9 <=? n)%nat && (n <=? 13)%nat) || ((28 <=? n)%nat && (n <=? 32)%nat).

Definition lower_char (c : ascii) : ascii :=
  let n := nat_of_ascii c in
  if ((65 <=? n)%nat && (n <=? 90)%nat) then ascii_of_nat (n + 32) else c.

(** [s.lower()] *)
Fixpoint lower (s : string) : string :=
  match s with
  | EmptyString => EmptyString
  | String c s' => String (lower_char c) (lower s')
  end.

(** [s.split()]: the maximal runs of non-blank characters, in order. *)
Fixpoint split (s : string) : list string :=
  match s with
  | EmptyString => []
  | String c s' =>
      if isspace c then split s'
      else
        match s' with
        | EmptyString => [String c EmptyString]
        | String d _ =>
            if isspace d then String c EmptyString :: split s'
            else
              match split s' with
              | w :: ws => String c w :: ws
              | [] => [String c EmptyString]
              end
        end
  end.

Fixpoint lstrip (s : string) : string :=
  match s with
  | EmptyString => EmptyString
  | String c s' => if isspace c then lstrip s' else s
  end.

(** [rstrip] drops a blank only when everything after it is dropped too. *)
Fixpoint rstrip (s : string) : string :=
  match s with
  | EmptyString => EmptyString
  | String c s' =>
      match rstrip s' with
      | EmptyString => if isspace c then EmptyString else String c EmptyString
      | r => String c r
      end
  end.

(** [s.strip()] *)
Definition strip (s : string) : string := rstrip (lstrip s).

(** [s.zfill(2)] for a string without sign. *)
Definition zfill2 (s : string) : string :=
  match s with
  | EmptyString => "00"
  | String c EmptyString => String "0"%char s
  | _ => s
  end.

(** [s[0]] and [s[-1]] of a non-empty string, as one-character strings. *)
Definition first (s : string) : string :=
  match s with
  | EmptyString => EmptyString
  | String c _ => String c EmptyString
  end.

Fixpoint last (s : string) : string :=
  match s with
  | EmptyString => EmptyString
  | String c EmptyString => s
  | String _ s' => last s'
  end.

(** Truth value of a string: non-empty. *)
Definition truthy (s : string) : bool :=
  match s with EmptyString => false | _ => true end.

End Str.

(** ** config.py *)

Record Feedie : Type := {
  bot_owner : list string;
  cmd_prefix : option string;
  shorten_service : option string;
  wrap_url : option string
}.

Record Network : Type := {
  server : string;
  port : Z;
  password : string;
  bot_nick : string;
  bot_name : string;
  pubmsg_log : bool;
  announce_delay : Q;
  default_refresh_delay : Q;
  startup_announces : bool
}.

Record Feed : Type := {
  url : string;
  color : string;
  channel : string;
  channel_key : string;
  enabled : bool;
  refresh_delay : option Q
}.

Record Config : Type := {
  feedie : Feedie;
  network : Network;
  feeds : list (string * Feed)     (* the dict [feeds], in insertion order *)
}.

(** ** Parse results, as feedparser hands them to the program *)

(** [time.struct_time]: a tuple of integers, compared as tuples are. *)
Definition struct_time : Type := list Z.

(** An item of a feed.  A field is [None] when the key is absent, that is
    when [d.get(key, default)] answers [default] and [key in d] is false.
    A date key that is present may hold Python's [None]. *)
Record entry : Type := {
  title : option string;
  link : option string;
  updated_parsed : option (option struct_time);
  published_parsed : option (option struct_time)
}.

(** What [getFeed] returns: either the [FeedParserDict] of
    [feedparser.parse] (where ['items'] is an alias of ['entries']), or the
    plain dict [{'items': [...]}] built by [error]. *)
Inductive results : Type :=
  | FeedParserDict (bozo_exception : option exception)
                   (feed : bool)            (* is [results['feed']] non-empty *)
                   (entries : list entry)
  | PlainDict (items : list entry).

(** [r['items']]: both kinds of result answer it. *)
Definition getitem_items (r : results) : list entry :=
  match r with
  | FeedParserDict _ _ es => es
  | PlainDict its => its
  end.

(** [r['entries']] *)
Definition getitem_entries (r : results) : result (list entry) :=
  match r with
  | FeedParserDict _ _ es => Returns es
  | PlainDict _ => Raises KeyError
  end.

(** [l[i]] *)
Definition getitem_list {A : Type} (l : list A) (i : nat) : result A :=
  match l !! i with
  | Some x => Returns x
  | None => Raises IndexError
  end.

(** ** The environment: feedparser, the clock, requests *)

(** [feedparser.parse(url)] either raises, or returns a [FeedParserDict]
    (which may carry a ['bozo_exception']). *)
Inductive parse_outcome : Type :=
  | parse_raises (e : exception)
  | parse_returns (bozo_exception : option exception) (feed : bool)
                  (entries : list entry).

(** An exception object caught around [requests.get], with the two
    attributes the handler reads. *)
Record request_error : Type := {
  error_class : exception;
  error_code : option string;
  error_msg : option string
}.

(** An exception object as the requests library raises it: its classes
    derive from [IOError] and carry [request] and [response]; they have no
    attribute [code] and none named [msg]. *)
Definition requests_exception (c : exception) : request_error :=
  {| error_class := c; error_code := None; error_msg := None |}.

Inductive get_outcome : Type :=
  | get_raises (e : request_error)
  | get_response (text : string).

Record env : Type := {
  feedparser_parse : string -> parse_outcome;       (* feedparser.parse(url) *)
  time_time : Q;                                    (* time.time() *)
  requests_get : string -> string -> get_outcome    (* requests.get(service, url=...) *)
}.

(** ** The state of [_Feeds] and of the bot's queue *)

Record world : Type := {
  cachedFeeds : gmap string results;
  lastRequest : gmap string Q;
  msg_queue : list (string * string);    (* (msg, target), oldest first *)
  stdout : list string
}.

Definition M (A : Type) : Type := world -> result A * world.

Definition ret {A : Type} (a : A) : M A := fun w => (Returns a, w).
Definition raise {A : Type} (e : exception) : M A := fun w => (Raises e, w).
Definition bind {A B : Type} (m : M A) (k : A -> M B) : M B :=
  fun w =>
    match m w with
    | (Returns a, w') => k a w'
    | (Raises e, w') => (Raises e, w')
    end.
Definition lift {A : Type} (r : result A) : M A := fun w => (r, w).
Definition get_world : M world := fun w => (Returns w, w).
Definition print (line : string) : M unit :=
  fun w => (Returns tt,
            {| cachedFeeds := cachedFeeds w; lastRequest := lastRequest w;
               msg_queue := msg_queue w; stdout := stdout w ++ [line] |}).

Declare Scope py_scope.
Delimit Scope py_scope with py.
Notation "x <- m ;; k" := (bind m (fun x => k))
  (at level 100, m at next level, right associativity) : py_scope.
Notation "m ;;; k" := (bind m (fun _ => k))
  (at level 100, right associativity) : py_scope.
Open Scope py_scope.

(** [d.get(key, default)] on a field that may be absent. *)
Definition dict_get {V : Type} (field : option V) (default : V) : V :=
  match field with
  | Some v => v
  | None => default
  end.

(** ** class _Feeds *)

Definition headline : Type := string * option string.

(** The key [canonize] builds: the words of the lower-cased title, and the
    link. *)
Definition headline_key : Type := list string * option string.

(** [a >= b] on tuples of integers. *)
Fixpoint tuple_ge (a b : struct_time) : bool :=
  match a, b with
  | _, [] => true
  | [], _ :: _ => false
  | x :: a', y :: b' => if (x =? y)%Z then tuple_ge a' b' else (y <? x)%Z
  end.

(** [time_old >= time_new] on what [.get] answered: [None] is not ordered. *)
Definition time_ge (time_old time_new : option struct_time) : result bool :=
  match time_old, time_new with
  | Some a, Some b => Returns (tuple_ge a b)
  | _, _ => Raises TypeError
  end.

(** [self.bot.mircColors] *)
Definition mircColors (name : string) : option string :=
  if decide (name = "white") then Some "0"
  else if decide (name = "black") then Some "1"
  else if decide (name = "blue") then Some "2"
  else if decide (name = "green") then Some "3"
  else if decide (name = "red") then Some "4"
  else if decide (name = "brown") then Some "5"
  else if decide (name = "purple") then Some "6"
  else if decide (name = "orange") then Some "7"
  else if decide (name = "yellow") then Some "8"
  else if decide (name = "light green") then Some "9"
  else if decide (name = "teal") then Some "10"
  else if decide (name = "light blue") then Some "11"
  else if decide (name = "dark blue") then Some "12"
  else if decide (name = "pink") then Some "13"
  else if decide (name = "dark grey") then Some "14"
  else if decide (name = "light grey") then Some "15"
  else if decide (name = "dark gray") then Some "14"
  else if decide (name = "light gray") then Some "15"
  else None.

(** [self.bot.mircColor(s, fg)] with a foreground colour and no background. *)
Definition mircColor (s fg : string) : result string :=
  match mircColors fg with
  | Some code =>
      Returns (String "003"%char (Str.zfill2 code +:+ s +:+ String "003"%char ""))
  | None => Raises KeyError
  end.

(** [self.bot.underline(s)] *)
Definition underline (s : string) : string :=
  String "031"%char (s +:+ String "031"%char "").

(** [self.services.get(name)] *)
Definition services (name : string) : option string :=
  if decide (name = "v.gd") then Some "https://v.gd/create.php?format=simple&"
  else if decide (name = "tinyurl.com") then Some "http://tinyurl.com/api-create.php?"
  else None.

Definition Timeout_downloading_feed : string := "Timeout downloading feed.".
Definition Unable_to_download_feed : string := "Unable to download feed.".
Definition Invalid_RSS_feed : string := "Invalid (unparsable) RSS feed.".

(** The inner function [error] of [getFeed]: [{'items': [{'title': s}]}]. *)
Definition error (s : string) : results :=
  PlainDict [ {| title := Some s; link := None;
                 updated_parsed := None; published_parsed := None |} ].

(** [headlines.append((title, link))] or [headlines.append((title, None))],
    for an item with a title; nothing for an item without. *)
Definition getHeadlines_step (headlines : list headline) (d : entry)
  : list headline :=
  match title d with
  | Some t =>
      match link d with
      | Some l => if Str.truthy l then headlines ++ [(t, Some l)]
                  else headlines ++ [(t, None)]
      | None => headlines ++ [(t, None)]
      end
  | None => headlines
  end.

Definition getHeadlines (feed : results) : list headline :=
  fold_left getHeadlines_step (getitem_items feed) [].

Definition canonize (h : headline) : headline_key :=
  (Str.split (Str.lower (fst h)), snd h).

Section Feeds.

Context (config : Config) (e : env).

(** [self.service_url], as [__init__] sets it. *)
Definition service_url : option string :=
  match shorten_service (feedie config) with
  | Some s => services s
  | None => None
  end.

Definition caught_by_shorten_url (c : exception) : bool :=
  match c with
  | requests_ConnectionError | requests_HTTPError | requests_Timeout => true
  | _ => false
  end.

Definition shorten_url (long_url : string) : M string :=
  match service_url with
  | None => ret long_url
  | Some service =>
      match requests_get e service long_url with
      | get_raises err =>
          if caught_by_shorten_url (error_class err) then
            (* print('%s:%s' % (error.code, error.msg)) *)
            match error_code err with
            | None => raise AttributeError
            | Some code =>
                match error_msg err with
                | None => raise AttributeError
                | Some msg => print (code +:+ ":" +:+ msg) ;;; ret long_url
                end
            end
          else raise (error_class err)
      | get_response text => ret text
      end
  end.

Definition set_cache (name : string) (r : results) (t : Q) : M unit :=
  fun w => (Returns tt,
            {| cachedFeeds := <[name := r]> (cachedFeeds w);
               lastRequest := <[name := t]> (lastRequest w);
               msg_queue := msg_queue w; stdout := stdout w |}).

Definition set_lastRequest (name : string) (t : Q) : M unit :=
  fun w => (Returns tt,
            {| cachedFeeds := cachedFeeds w;
               lastRequest := <[name := t]> (lastRequest w);
               msg_queue := msg_queue w; stdout := stdout w |}).

(** The last part of [getFeed], run once [results] is bound. *)
Definition getFeed_store (name : string) (r : results) (is_feed : bool)
  : M results :=
  (if is_feed then set_cache name r (time_time e)
   else print "Not caching results; feed is empty.") ;;;
  w <- get_world ;;
  match cachedFeeds w !! name with
  | Some cached => ret cached
  | None =>
      set_lastRequest name (time_time e - (5 # 10) * 180)%Q ;;;
      ret (error Unable_to_download_feed)
  end.

Definition getFeed (url name : string) : M results :=
  match feedparser_parse e url with
  | parse_raises SGMLParseError => ret (error Invalid_RSS_feed)
  | parse_raises socket_timeout => ret (error Timeout_downloading_feed)
  | parse_raises _ =>
      (* [except Exception: pass], and [results] was never bound *)
      raise UnboundLocalError
  | parse_returns (Some SGMLParseError) _ _ => ret (error Invalid_RSS_feed)
  | parse_returns (Some socket_timeout) _ _ =>
      ret (error Timeout_downloading_feed)
  | parse_returns bozo is_feed es =>
      getFeed_store name (FeedParserDict bozo is_feed es) is_feed
  end.

(** [self.bot.queue_send(msg, target)] *)
Definition queue_send (msg target : string) : M unit :=
  fun w => (Returns tt,
            {| cachedFeeds := cachedFeeds w; lastRequest := lastRequest w;
               msg_queue := msg_queue w ++ [(Str.strip msg, target)];
               stdout := stdout w |}).

Fixpoint queue_send_all (text : string) (chans : list string) : M unit :=
  match chans with
  | [] => ret tt
  | chan :: rest => queue_send text chan ;;; queue_send_all text rest
  end.

(** The set comprehension [{feed.channel for feed in config.feeds.values()}],
    listed in the order [elements] gives (Python fixes no order either). *)
Definition all_channels : list string :=
  elements (list_to_set (C := gset string)
              (map (fun nf => channel (snd nf)) (feeds config))).

Definition on_rss_entry (chan text : string) : M unit :=
  if Str.truthy chan then queue_send text chan
  else queue_send_all text all_channels.

(** One round of the first loop of [feed_refresh], at index [i]: is the
    headline already seen? *)
Definition seen_at (oldresults : option results) (newresults : results)
    (oldheadlines : gset headline_key) (i : nat) (h : headline)
  : result bool :=
  match oldresults with
  | None => Raises UnboundLocalError
  | Some old =>
      match getitem_entries old with
      | Raises x => Raises x
      | Returns old_entries =>
      match getitem_list old_entries i with
      | Raises x => Raises x
      | Returns entry_old =>
      match getitem_entries newresults with
      | Raises x => Raises x
      | Returns new_entries =>
      match getitem_list new_entries i with
      | Raises x => Raises x
      | Returns entry_new =>
          let time_old :=
            dict_get (updated_parsed entry_old)
                     (dict_get (published_parsed entry_new) None) in
          let time_new :=
            dict_get (updated_parsed entry_new)
                     (dict_get (published_parsed entry_new) None) in
          if decide (canonize h ∈ oldheadlines)
          then time_ge time_old time_new
          else Returns false
      end end end end
  end.

(** The first loop: [todo] is what [enumerate] has still to yield, from
    index [i] on; [newheadlines] is the list being overwritten. *)
Fixpoint mark_seen (oldresults : option results) (newresults : results)
    (oldheadlines : gset headline_key) (i : nat) (todo : list headline)
    (newheadlines : list (option headline))
  : result (list (option headline)) :=
  match todo with
  | [] => Returns newheadlines
  | h :: rest =>
      match seen_at oldresults newresults oldheadlines i h with
      | Raises x => Raises x
      | Returns seen =>
          mark_seen oldresults newresults oldheadlines (S i) rest
            (if seen then <[i := None]> newheadlines else newheadlines)
      end
  end.

(** The text of one announcement and its hand-over to [on_rss_entry]. *)
Definition announce_one (feed : Feed) (name : string) (newresults : results)
    (i : nat) (title : string) : M unit :=
  new_entries <- lift (getitem_entries newresults) ;;
  entry_new <- lift (getitem_list new_entries i) ;;
  link <- shorten_url (dict_get (link entry_new) "no_url") ;;
  feedName <- lift (mircColor name (color feed)) ;;
  feedTitle <- lift (mircColor title "blue") ;;
  let chan := channel feed in
  let fmturl := underline link in
  let fmturl :=
    match wrap_url (feedie config) with
    | Some wrap =>
        if Str.truthy wrap then Str.first wrap +:+ fmturl +:+ Str.last wrap
        else fmturl
    | None => fmturl
    end in
  on_rss_entry chan (feedName +:+ " " +:+ feedTitle +:+ " " +:+ fmturl).

(** The second loop, over [enumerate(newheadlines)] from index [i]. *)
Fixpoint announce (feed : Feed) (name : string) (newresults : results)
    (i : nat) (newheadlines : list (option headline)) : M unit :=
  match newheadlines with
  | [] => ret tt
  | None :: rest => announce feed name newresults (S i) rest
  | Some (title, l) :: rest =>
      (if match l with Some s => Str.truthy s | None => false end
       then announce_one feed name newresults i title
       else ret tt) ;;;
      announce feed name newresults (S i) rest
  end.

(** The single-headline guard: the title that makes the poll a failure. *)
Definition failure_title (newheadlines : list headline) : option string :=
  match newheadlines with
  | [(s, _)] =>
      if decide (s = Timeout_downloading_feed) then Some s
      else if decide (s = Unable_to_download_feed) then Some s
      else None
  | _ => None
  end.

Definition feed_refresh (feed : Feed) (name : string) : M unit :=
  let url := url feed in
  w <- get_world ;;
  let oldresults := cachedFeeds w !! name in
  let oldheadlines :=
    match oldresults with
    | Some r => getHeadlines r
    | None => []
    end in
  if negb (startup_announces (network config))
     && match oldheadlines with [] => true | _ => false end
  then
    newresults <- getFeed url name ;;
    ret tt
  else
    newresults <- getFeed url name ;;
    let newheadlines := getHeadlines newresults in
    match failure_title newheadlines with
    | Some s => print ("%s %u " +:+ s +:+ " " +:+ url)
    | None =>
        let oldheadlines : gset headline_key :=
          list_to_set (map canonize oldheadlines) in
        newheadlines <-
          lift (mark_seen oldresults newresults oldheadlines 0 newheadlines
                          (map Some newheadlines)) ;;
        match newheadlines with
        | [] => ret tt
        | _ => announce feed name newresults 0 newheadlines
        end
    end.

(** [feed_refresh_oneTimer]: the feeds without a delay of their own, one
    after the other. *)
Fixpoint feed_refresh_oneTimer (feeds : list (string * Feed)) : M unit :=
  match feeds with
  | [] => ret tt
  | (name, feed) :: rest =>
      feed_refresh feed name ;;; feed_refresh_oneTimer rest
  end.

End Feeds.

(** ** class PeriodicExecutor *)

Module PeriodicExecutor.

(** How the thread stands after some iterations of [run]. *)
Inductive status : Type :=
  | Returned                   (* [_finished] was set: [run] returned *)
  | Raised (x : exception)     (* [_func] raised: [run] is left by it *)
  | Waiting.                   (* still in the loop *)

Section Run.

Context {State : Type}.
(** [self._func( **self._params)] at the k-th iteration. *)
Context (_func : nat -> State -> result unit * State).
(** [self._finished.isSet()] as read at the head of the k-th iteration
    ([shutdown] is called from another thread). *)
Context (_finished : nat -> bool).

(** [fuel] iterations of the loop of [run], from iteration [k]; the
    answer holds the status, the number of iterations started and the
    state. *)
Fixpoint run_from (fuel k : nat) (s : State) : status * nat * State :=
  match fuel with
  | O => (Waiting, k, s)
  | S fuel' =>
      if _finished k then (Returned, k, s)
      else
        match _func k s with
        | (Returns _, s') => run_from fuel' (S k) s'
        | (Raises x, s') => (Raised x, S k, s')
        end
  end.

Definition run (fuel : nat) (s : State) : status * nat * State :=
  run_from fuel 0 s.

End Run.

End PeriodicExecutor.

(** ** class ReconnectStrategy *)

(** [int(x)]: truncation towards zero. *)
Definition int (x : Q) : Z := Z.quot (Qnum x) (Z.pos (Qden x)).

Module ReconnectStrategy.

Record t : Type := {
  min_interval : Z;
  max_interval : Z;
  _check_scheduled : bool;
  attempt_count : Z            (* what [next(self.attempt_count)] gives *)
}.

(** [ReconnectStrategy(min_interval=..., max_interval=...)] *)
Definition __init__ (min_interval max_interval : Z) : result t :=
  if ((0 <=? min_interval)%Z && (min_interval <=? max_interval)%Z) then
    Returns {| min_interval := min_interval; max_interval := max_interval;
               _check_scheduled := false; attempt_count := 1 |}
  else Raises AssertionError.

(** The bound before jitter: [min(2**n - 1, self.max_interval)]. *)
Definition bound (self : t) (n : Z) : Z :=
  Z.min (2 ^ n - 1) (max_interval self).

(** The interval [run] computes at attempt [n] with [random.random()]
    answering [random]. *)
Definition interval (self : t) (n : Z) (random : Q) : Z :=
  let intvl := 2 ^ n - 1 in
  let intvl := Z.min intvl (max_interval self) in
  let intvl := int (inject_Z intvl * random) in
  let intvl := Z.max intvl (min_interval self) in
  intvl.

(** [run]: the new state and, when a timer is started, its interval. *)
Definition run (random : Q) (self : t) : t * option Z :=
  if _check_scheduled self then (self, None)
  else
    let n := attempt_count self in
    ({| min_interval := min_interval self;
        max_interval := max_interval self;
        _check_scheduled := true;
        attempt_count := n + 1 |},
     Some (interval self n random)).

End ReconnectStrategy.

(** ** class feedie: the connection and the queue consumer *)

Module Bot.

(** What the bot does to the outside, in order. *)
Inductive action : Type :=
  | Privmsg (target msg : string)      (* connection.privmsg *)
  | Disconnect (msg : string)          (* connection.disconnect *)
  | Connect                            (* self._connect() *)
  | StartTimer (intvl : Z)             (* threading.Timer(intvl, check).start() *)
  | Sleep (delay : Q)                  (* time.sleep *)
  | Print (line : string).

Record t : Type := {
  connected : bool;                    (* connection.is_connected() *)
  channels : list string;
  recon : ReconnectStrategy.t;
  trace : list action
}.

(** What [self._connect()] does, which this program does not define. *)
Inductive connect_outcome : Type :=
  | connect_returns (is_connected : bool)
  | connect_raises (x : exception).

(** The answers of the outside during one iteration of the consumer. *)
Record answers : Type := {
  _connect : connect_outcome;
  random_random : Q
}.

Definition act (a : action) (self : t) : t :=
  {| connected := connected self; channels := channels self;
     recon := recon self; trace := trace self ++ [a] |}.

(** [connection.privmsg(target, msg)] *)
Definition privmsg (target msg : string) (self : t) : result unit * t :=
  if connected self then (Returns tt, act (Privmsg target msg) self)
  else (Raises ServerNotConnectedError, self).

(** [self.recon.run(self)] *)
Definition recon_run (a : answers) (self : t) : t :=
  let '(r, timer) := ReconnectStrategy.run (random_random a) (recon self) in
  {| connected := connected self; channels := channels self; recon := r;
     trace := match timer with
              | Some intvl => trace self ++ [StartTimer intvl]
              | None => trace self
              end |}.

Definition on_disconnect (a : answers) (self : t) : t :=
  recon_run a {| connected := connected self; channels := [];
                 recon := recon self; trace := trace self |}.

(** [connection.disconnect(msg)]: closes the connection and dispatches the
    disconnect event to [on_disconnect]. *)
Definition connection_disconnect (a : answers) (msg : string) (self : t) : t :=
  on_disconnect a
    {| connected := false; channels := channels self; recon := recon self;
       trace := trace self ++ [Disconnect msg] |}.

Definition jump_server (a : answers) (self : t) : result unit * t :=
  let self :=
    if connected self then connection_disconnect a "Changing servers" self
    else self in
  let self := act Connect self in
  match _connect a with
  | connect_returns c =>
      (Returns tt,
       {| connected := c; channels := channels self; recon := recon self;
          trace := trace self |})
  | connect_raises x => (Raises x, self)
  end.

(** One iteration of the loop of [msq_queue_tasks] on the message that
    [queue.get()] returned. *)
Definition msq_queue_task (a : answers) (delay : Q) (item : string * string)
    (self : t) : result unit * t :=
  let '(msg, target) := item in
  match privmsg target msg self with
  | (Returns _, self) => (Returns tt, act (Sleep delay) self)
  | (Raises ServerNotConnectedError, self) =>
      let self := act (Print "Error: Not connected.") self in
      match jump_server a self with
      | (Returns _, self) => (Returns tt, act (Sleep delay) self)
      | (Raises x, self) => (Raises x, self)
      end
  | (Raises x, self) => (Raises x, self)
  end.

(** The loop of [msq_queue_tasks] over what the queue holds; [Returns]
    stands for the consumer waiting in [queue.get()] on the empty queue,
    [Raises] for the thread left by an exception.  The queue that is left
    comes back with the state. *)
Fixpoint msq_queue_tasks (a : nat -> answers) (delay : Q) (k : nat)
    (queue : list (string * string)) (self : t)
  : result unit * list (string * string) * t :=
  match queue with
  | [] => (Returns tt, [], self)
  | item :: rest =>
      match msq_queue_task (a k) delay item self with
      | (Returns _, self) => msq_queue_tasks a delay (S k) rest self
      | (Raises x, self) => (Raises x, rest, self)
      end
  end.

(** [ReconnectStrategy.check], which the timer runs: the pending check is
    over; when the connection is down, the next round is scheduled and the
    bot jumps to the server. *)
Definition check (a : answers) (self : t) : result unit * t :=
  let self :=
    {| connected := connected self; channels := channels self;
       recon :=
         {| ReconnectStrategy.min_interval :=
              ReconnectStrategy.min_interval (recon self);
            ReconnectStrategy.max_interval :=
              ReconnectStrategy.max_interval (recon self);
            ReconnectStrategy._check_scheduled := false;
            ReconnectStrategy.attempt_count :=
              ReconnectStrategy.attempt_count (recon self) |};
       trace := trace self |} in
  if connected self then (Returns tt, self)
  else jump_server a (recon_run a self).

End Bot.

(** ** class _Feeds: the executors [init_periodic_feedRefresh] starts *)

(** What a [PeriodicExecutor] was built to call. *)
Inductive task : Type :=
  | call_feed_refresh (name : string) (feed : Feed)
  | call_feed_refresh_oneTimer (feeds : list (string * Feed)).

(** [PeriodicExecutor(interval, func, **kwargs)] *)
Record executor : Type := {
  _interval : Q;
  _func : task
}.

(** The state of [init_periodic_feedRefresh]: the dict [self.feed_thread],
    whose values are what [Thread.start()] returned, that is [None]; the
    executors started so far, oldest first; and the list [feeds_oneTimer]. *)
Record scheduling : Type := {
  feed_thread : gmap string (option executor);
  started : list executor;
  feeds_oneTimer : list (string * Feed)
}.

(** One round of the loop over [self.config.feeds.items()]. *)
Definition schedule_feed (st : scheduling) (item : string * Feed) : scheduling :=
  let '(name, feed) := item in
  if negb (enabled feed) then st
  else
    match refresh_delay feed with
    | Some delay =>
        {| feed_thread := <[name := None]> (feed_thread st);
           started := started st
                      ++ [ {| _interval := delay;
                              _func := call_feed_refresh name feed |} ];
           feeds_oneTimer := feeds_oneTimer st |}
    | None =>
        {| feed_thread := feed_thread st;
           started := started st;
           feeds_oneTimer := feeds_oneTimer st ++ [(name, feed)] |}
    end.

Definition init_periodic_feedRefresh (config : Config) : scheduling :=
  let st :=
    fold_left schedule_feed (feeds config)
      {| feed_thread := ∅; started := []; feeds_oneTimer := [] |} in
  match feeds_oneTimer st with
  | [] => st
  | _ :: _ =>
      let refresh_time := default_refresh_delay (network config) in
      {| feed_thread := <["__oneTimer__" := None]> (feed_thread st);
         started := started st
                    ++ [ {| _interval := refresh_time;
                            _func := call_feed_refresh_oneTimer
                                       (feeds_oneTimer st) |} ];
         feeds_oneTimer := feeds_oneTimer st |}
  end.

(** ** class feedie: the formatting helpers *)

Module Formatting.

Definition BOLD : ascii := "002"%char.
Definition COLOR : ascii := "003"%char.
Definition END : ascii := "015"%char.
Definition SWAP : ascii := "022"%char.
Definition UNDERLINE : ascii := "031"%char.

(** [s.replace(c, '')] for a one-character [c]. *)
Fixpoint remove (c : ascii) (s : string) : string :=
  match s with
  | EmptyString => EmptyString
  | String a s' =>
      if decide (a = c) then remove c s' else String a (remove c s')
  end.

Definition bold (s : string) : string :=
  String BOLD (s +:+ String BOLD "").

Definition reverse (s : string) : string :=
  String SWAP (s +:+ String SWAP "").

Definition stripBold (s : string) : string := remove BOLD s.

(** [\d] on ASCII. *)
Definition is_digit (c : ascii) : bool :=
  let n := nat_of_ascii c in (48 <=? n)%nat && (n <=? 57)%nat.

(** How many characters [\d{1,2}] takes at the head of [s]: two when it
    can, none when it fails. *)
Definition digits12 (s : string) : nat :=
  match s with
  | String a r =>
      if is_digit a then
        match r with
        | String b _ => if is_digit b then 2%nat else 1%nat
        | EmptyString => 1%nat
        end
      else 0%nat
  | EmptyString => 0%nat
  end.

Fixpoint drop (n : nat) (s : string) : string :=
  match n, s with
  | S n', String _ s' => drop n' s'
  | _, _ => s
  end.

(** How many characters [,\d{1,2}] takes at the head of [s]; none when it
    fails. *)
Definition comma_digits (s : string) : nat :=
  match s with
  | String a r =>
      if decide (a = ","%char) then
        match digits12 r with
        | O => 0%nat
        | n => S n
        end
      else 0%nat
  | EmptyString => 0%nat
  end.

(** How many characters the group of [_stripColorRe],
    [(?:\d{1,2},\d{1,2}|\d{1,2}|,\d{1,2}|)], takes at the head of [s]:
    the first alternative that matches, its first [\d{1,2}] giving back a
    digit when the comma does not follow. *)
Definition color_code_length (s : string) : nat :=
  let d := digits12 s in
  let both :=
    match d with
    | 2%nat =>
        match comma_digits (drop 2 s) with
        | O => match comma_digits (drop 1 s) with
               | O => 0%nat
               | m => (1 + m)%nat
               end
        | m => (2 + m)%nat
        end
    | 1%nat =>
        match comma_digits (drop 1 s) with
        | O => 0%nat
        | m => (1 + m)%nat
        end
    | _ => 0%nat
    end in
  match both with
  | O => match d with
         | O => comma_digits s
         | _ => d
         end
  | n => n
  end.

(** [_stripColorRe.sub('', s)]: [skip] characters of the match in progress
    are still to be dropped. *)
Fixpoint stripColor_from (skip : nat) (s : string) : string :=
  match s with
  | EmptyString => EmptyString
  | String a s' =>
      match skip with
      | S n => stripColor_from n s'
      | O =>
          if decide (a = COLOR)
          then stripColor_from (color_code_length s') s'
          else String a (stripColor_from 0 s')
      end
  end.

Definition stripColor (s : string) : string := stripColor_from 0 s.

Definition stripReverse (s : string) : string := remove SWAP s.

Definition stripUnderline (s : string) : string :=
  remove UNDERLINE (remove UNDERLINE s).

Definition stripFormatting (s : string) : string :=
  let s := stripColor s in
  let s := stripBold s in
  let s := stripReverse s in
  let s := stripUnderline s in
  remove END (remove END s).

(** [mircColor(s, fg, bg)], with [None] for a colour not given. *)
Definition mircColor (s : string) (fg bg : option string) : result string :=
  match fg, bg with
  | None, None => Returns s
  | Some fg, None =>
      match mircColors fg with
      | Some fg =>
          Returns (String COLOR (Str.zfill2 fg +:+ s +:+ String COLOR ""))
      | None => Raises KeyError
      end
  | None, Some bg =>
      match mircColors bg with
      | Some bg =>
          Returns (String COLOR
                     ("00," +:+ Str.zfill2 bg +:+ s +:+ String COLOR ""))
      | None => Raises KeyError
      end
  | Some fg, Some bg =>
      match mircColors fg with
      | Some fg =>
          match mircColors bg with
          | Some bg =>
              Returns (String COLOR
                         (fg +:+ "," +:+ Str.zfill2 bg +:+ s
                          +:+ String COLOR ""))
          | None => Raises KeyError
          end
      | None => Raises KeyError
      end
  end.

End Formatting.

(** ** Vocabulary of the properties *)

(** The items [getHeadlines] keeps, and the pair it makes of one. *)
Definition has_title (d : entry) : bool :=
  match title d with Some _ => true | None => false end.

Definition title_link (d : entry) : headline :=
  (dict_get (title d) "",
   match link d with
   | Some l => if Str.truthy l then Some l else None
   | None => None
   end).

(** The three kinds of failed fetch [getFeed] tells apart. *)
Definition unparsable (o : parse_outcome) : Prop :=
  o = parse_raises SGMLParseError
  \/ exists is_feed es, o = parse_returns (Some SGMLParseError) is_feed es.


Definition empty_result (o : parse_outcome) : Prop :=
  exists bozo es,
    o = parse_returns bozo false es
    /\ bozo <> Some SGMLParseError /\ bozo <> Some socket_timeout.

(** The one item of [error s]. *)
Definition synthetic_entry (s : string) : entry :=
  {| title := Some s; link := None;
     updated_parsed := None; published_parsed := None |}.

(** How many messages one call of [on_rss_entry] queues for a feed. *)
Definition per_announcement (config : Config) (feed : Feed) : nat :=
  if Str.truthy (channel feed) then 1%nat
  else length (all_channels config).

(** A computation that only ever appends to the queue, at most [n]
    messages. *)
Definition queues_at_most {A : Type} (n : nat) (m : M A) : Prop :=
  forall w : world,
    exists msgs : list (string * string),
      msg_queue (snd (m w)) = msg_queue w ++ msgs
      /\ (length msgs <= n)%nat.

(** A fetch that gives content: a result with a non-empty feed, whose bozo
    exception, if any, is none of the two [getFeed] handles. *)
Definition good_fetch (o : parse_outcome) (r : results) : Prop :=
  exists bozo es,
    o = parse_returns bozo true es
    /\ r = FeedParserDict bozo true es
    /\ bozo <> Some SGMLParseError /\ bozo <> Some socket_timeout.

(** The date the first loop reads off an entry compared with itself. *)
Definition entry_time (d : entry) : option struct_time :=
  dict_get (updated_parsed d) (dict_get (published_parsed d) None).

(** A computation that leaves the cache and the last-request times alone. *)
Definition keeps_caches {A : Type} (m : M A) : Prop :=
  forall w : world,
    cachedFeeds (snd (m w)) = cachedFeeds w
    /\ lastRequest (snd (m w)) = lastRequest w.

(** The executor a feed gets for itself, and the feeds left to the shared
    timer. *)
Definition own_executor (item : string * Feed) : option executor :=
  if enabled (snd item) then
    match refresh_delay (snd item) with
    | Some delay =>
        Some {| _interval := delay;
                _func := call_feed_refresh (fst item) (snd item) |}
    | None => None
    end
  else None.

(** The enabled feeds without a delay of their own. *)
Definition shares_timer (item : string * Feed) : bool :=
  enabled (snd item)
  && match refresh_delay (snd item) with Some _ => false | None => true end.

(** [c in s] *)
Fixpoint contains (c : ascii) (s : string) : bool :=
  match s with
  | EmptyString => false
  | String a s' => if decide (a = c) then true else contains c s'
  end.

(** A string without any of the five formatting characters. *)
Definition plain (s : string) : Prop :=
  contains Formatting.COLOR s = false
  /\ contains Formatting.BOLD s = false
  /\ contains Formatting.SWAP s = false
  /\ contains Formatting.UNDERLINE s = false
  /\ contains Formatting.END s = false.

(** The codes of [mircColors] are one or two digits. *)
Definition color_code (code : string) : Prop :=
  (exists a, code = String a "" /\ Formatting.is_digit a = true)
  \/ (exists a b, code = String a (String b "")
                  /\ Formatting.is_digit a = true
                  /\ Formatting.is_digit b = true).


(** [clamp(x, lo, hi)], as the backoff is described. *)
Definition clamp (x lo hi : Z) : Z := Z.max lo (Z.min x hi).

(** ** Sample data *)

Module Sample.

Definition config (startup : bool) (service : option string) : Config :=
  {| feedie := {| bot_owner := ["xstill"]; cmd_prefix := Some "@";
                  shorten_service := service; wrap_url := None |};
     network := {| server := "chat.freenode.net"; port := 6667; password := "";
                   bot_nick := "FEED"; bot_name := "feedie pyBot v1.1";
                   pubmsg_log := false; announce_delay := (5 # 10)%Q;
                   default_refresh_delay := (35 # 1)%Q;
                   startup_announces := startup |};
     feeds := [] |}.

Definition feed : Feed :=
  {| url := "http://example.org/rss"; color := "red"; channel := "#news";
     channel_key := ""; enabled := true; refresh_delay := None |}.

(** An item with a title, a link and both dates. *)
Definition item (t l : string) (date : struct_time) : entry :=
  {| title := Some t; link := Some l;
     updated_parsed := Some (Some date);
     published_parsed := Some (Some date) |}.

Definition day1 : struct_time := [2020; 1; 1; 0; 0; 0; 2; 1; 0].
Definition day2 : struct_time := [2020; 1; 2; 0; 0; 0; 3; 2; 0].

Definition old_item : entry := item "Old Title" "http://x/1" day1.
Definition new_item : entry := item "New Title" "http://x/2" day2.

(** The bot as [feedie.__init__] builds it ([min_interval=10]), not
    connected. *)
Definition strategy : ReconnectStrategy.t :=
  {| ReconnectStrategy.min_interval := 10;
     ReconnectStrategy.max_interval := 300;
     ReconnectStrategy._check_scheduled := false;
     ReconnectStrategy.attempt_count := 1 |}.

Definition offline_bot : Bot.t :=
  {| Bot.connected := false; Bot.channels := ["#news"];
     Bot.recon := strategy; Bot.trace := [] |}.

Definition answers : Bot.answers :=
  {| Bot._connect := Bot.connect_returns false;
     Bot.random_random := (1 # 2)%Q |}.

(** An item without a title, as an item whose title element is missing
    comes out of feedparser. *)
Definition untitled_item : entry :=
  {| title := None; link := Some "http://x/untitled";
     updated_parsed := None; published_parsed := None |}.


(** What a good fetch returns and what the cache then holds. *)
Definition parsed (es : list entry) : results := FeedParserDict None true es.

Definition empty_world : world :=
  {| cachedFeeds := ∅; lastRequest := ∅; msg_queue := []; stdout := [] |}.

(** Feed "A" was fetched at time 1000 and had the one old item. *)
Definition cached_world : world :=
  {| cachedFeeds := {[ "A" := parsed [old_item] ]};
     lastRequest := {[ "A" := (1000 # 1)%Q ]};
     msg_queue := []; stdout := [] |}.

(** Feed "A" was fetched at time 1000 and had two items. *)
Definition cached_world2 : world :=
  {| cachedFeeds := {[ "A" := parsed [old_item; item "Older Title" "http://x/0" day1] ]};
     lastRequest := {[ "A" := (1000 # 1)%Q ]};
     msg_queue := []; stdout := [] |}.

(** The outside at time 2000: what the fetch gives, and a shortener that
    answers [answer]. *)
Definition outside (fetch : parse_outcome) (answer : get_outcome) : env :=
  {| feedparser_parse := fun _ => fetch; time_time := (2000 # 1)%Q;
     requests_get := fun _ _ => answer |}.

Definition short : get_outcome := get_response "http://tinyurl.com/abc".

End Sample.

(** * Properties *)

(** ** getHeadlines *)

Lemma getHeadlines_step_app (acc : list headline) (d : entry) :
  getHeadlines_step acc d
  = acc ++ (if has_title d then [title_link d] else []).
Proof.
  unfold getHeadlines_step, has_title, title_link.
  destruct (title d) as [t|]; simpl.
  - destruct (link d) as [l|]; [destruct (Str.truthy l)|]; reflexivity.
  - symmetry. apply app_nil_r.
Qed.

Lemma fold_getHeadlines_step (l : list entry) :
  forall acc,
    fold_left getHeadlines_step l acc
    = acc ++ map title_link (List.filter has_title l).
Proof.
  induction l as [|d l IH]; intros acc; simpl.
  - symmetry. apply app_nil_r.
  - rewrite IH, getHeadlines_step_app.
    destruct (has_title d); simpl.
    + rewrite <- app_assoc. reflexivity.
    + rewrite app_nil_r. reflexivity.
Qed.

Lemma getHeadlines_filter (r : results) :
  getHeadlines r = map title_link (List.filter has_title (getitem_items r)).
Proof. unfold getHeadlines. apply fold_getHeadlines_step. Qed.

Lemma filter_all_titled (l : list entry) :
  Forall (fun d => has_title d = true) l -> List.filter has_title l = l.
Proof.
  induction 1 as [|d l Hd _ IH]; simpl; [reflexivity|].
  rewrite Hd, IH. reflexivity.
Qed.

Lemma getHeadlines_length (r : results) :
  (length (getHeadlines r) <= length (getitem_items r))%nat.
Proof.
  rewrite getHeadlines_filter, length_map. apply List.filter_length_le.
Qed.

(** ** getFeed *)

Lemma getHeadlines_error (s : string) : getHeadlines (error s) = [(s, None)].
Proof. reflexivity. Qed.


(** A fetch that gives content is stored under the feed's name, with the
    time of the request, and returned. *)
Lemma getFeed_good_fetch (e : env) (url name : string) (w : world)
    (r : results) :
  good_fetch (feedparser_parse e url) r ->
  getFeed e url name w
  = (Returns r,
     {| cachedFeeds := <[name := r]> (cachedFeeds w);
        lastRequest := <[name := time_time e]> (lastRequest w);
        msg_queue := msg_queue w; stdout := stdout w |}).
Proof.
  intros (bozo & es & Ho & -> & Hsgml & Htimeout).
  assert (Hstore : getFeed e url name w
                   = getFeed_store e name (FeedParserDict bozo true es) true w).
  { unfold getFeed. rewrite Ho.
    destruct bozo as [x|]; [destruct x|]; try reflexivity; congruence. }
  rewrite Hstore.
  unfold getFeed_store, bind, get_world, set_cache, ret. simpl.
  rewrite lookup_insert_eq. reflexivity.
Qed.

(** [getFeed] leaves the queue alone. *)
Lemma getFeed_msg_queue (e : env) (url name : string) (w : world) :
  msg_queue (snd (getFeed e url name w)) = msg_queue w.
Proof.
  unfold getFeed.
  destruct (feedparser_parse e url) as [x | bozo is_feed es].
  - destruct x; reflexivity.
  - assert (Hstore : forall r,
      msg_queue (snd (getFeed_store e name r is_feed w)) = msg_queue w).
    { intros r. unfold getFeed_store, bind, get_world, set_cache, print,
        set_lastRequest, ret.
      destruct is_feed; simpl.
      - rewrite lookup_insert_eq. reflexivity.
      - destruct (cachedFeeds w !! name); reflexivity. }
    destruct bozo as [x|]; [destruct x|]; try reflexivity; apply Hstore.
Qed.

(** C2 (as the code has it): on unparsable content (an SGML parse error,
    raised or reported as the bozo exception) [getFeed] returns the result
    whose single entry is titled "Invalid (unparsable) RSS feed.", whether or
    not the feed has cached content, and stores nothing: the cache and the
    last-request times are as before. *)
Theorem getFeed_unparsable (e : env) (url name : string) (w : world) :
  unparsable (feedparser_parse e url) ->
  getFeed e url name w = (Returns (error Invalid_RSS_feed), w)
  /\ getitem_items (error Invalid_RSS_feed) = [synthetic_entry Invalid_RSS_feed].
Proof.
  intros H. split; [|reflexivity].
  destruct H as [H | (is_feed & es & H)]; unfold getFeed; rewrite H; reflexivity.
Qed.

Lemma getFeed_unparsable_witness :
  getFeed (Sample.outside (parse_raises SGMLParseError) Sample.short)
          "http://example.org/rss" "A" Sample.cached_world
  = (Returns (error Invalid_RSS_feed), Sample.cached_world)
  /\ getitem_items (error Invalid_RSS_feed) = [synthetic_entry Invalid_RSS_feed].
Proof.
  apply (getFeed_unparsable
           (Sample.outside (parse_raises SGMLParseError) Sample.short)).
  left. reflexivity.
Defined.

(** C2 as stated fails: with good content cached for the feed, a fetch of
    unparsable content does not return the cached result. *)
Lemma getFeed_unparsable_not_cached :
  ~ (forall (e : env) (url name : string) (w : world) (cached : results),
        unparsable (feedparser_parse e url) ->
        cachedFeeds w !! name = Some cached ->
        fst (getFeed e url name w) = Returns cached).
Proof.
  intros claim.
  specialize (claim (Sample.outside (parse_raises SGMLParseError) Sample.short)
                    "http://example.org/rss" "A" Sample.cached_world
                    (Sample.parsed [Sample.old_item])).
  assert (H : unparsable (parse_raises SGMLParseError)) by (left; reflexivity).
  specialize (claim H eq_refl).
  vm_compute in claim. discriminate claim.
Qed.

(** C3 (as the code has it): when the fetch gives an empty result (no
    feed-level content; neither timeout nor unparsable) [getFeed] leaves the
    cache as it is.  With cached content it returns that content and leaves
    the last-request time as it is; without, it returns the result whose
    single entry is titled "Unable to download feed." and sets the
    last-request time to 90 seconds before now. *)
Theorem getFeed_empty_result (e : env) (url name : string) (w : world) :
  empty_result (feedparser_parse e url) ->
  cachedFeeds (snd (getFeed e url name w)) = cachedFeeds w
  /\ match cachedFeeds w !! name with
     | Some cached =>
         fst (getFeed e url name w) = Returns cached
         /\ lastRequest (snd (getFeed e url name w)) = lastRequest w
     | None =>
         fst (getFeed e url name w) = Returns (error Unable_to_download_feed)
         /\ lastRequest (snd (getFeed e url name w))
            = <[name := (time_time e - (5 # 10) * 180)%Q]> (lastRequest w)
         /\ (time_time e - (5 # 10) * 180 == time_time e - 90)%Q
         /\ (time_time e - (5 # 10) * 180 < time_time e)%Q
     end.
Proof.
  intros (bozo & es & Ho & Hsgml & Htimeout).
  assert (Hstore : getFeed e url name w
                   = getFeed_store e name (FeedParserDict bozo false es) false w).
  { unfold getFeed. rewrite Ho.
    destruct bozo as [x|]; [destruct x|]; try reflexivity; congruence. }
  rewrite Hstore.
  unfold getFeed_store, bind, get_world, print, set_lastRequest, ret. simpl.
  destruct (cachedFeeds w !! name) as [cached|]; simpl.
  - auto.
  - repeat split; [ring | lra].
Qed.

Lemma getFeed_empty_result_witness :
  let e := Sample.outside (parse_returns None false []) Sample.short in
  cachedFeeds (snd (getFeed e "http://example.org/rss" "A" Sample.empty_world))
  = ∅
  /\ fst (getFeed e "http://example.org/rss" "A" Sample.empty_world)
     = Returns (error Unable_to_download_feed)
  /\ lastRequest (snd (getFeed e "http://example.org/rss" "A" Sample.empty_world))
       !! "A" = Some (2000 - (5 # 10) * 180)%Q.
Proof.
  intros e.
  destruct (getFeed_empty_result e "http://example.org/rss" "A" Sample.empty_world)
    as (Hcache & Hret & Hlast & _).
  - exists None, []. repeat split; discriminate.
  - split; [exact Hcache|]. split; [exact Hret|].
    rewrite Hlast. apply lookup_insert_eq.
Defined.

(** C3 as stated fails: with content cached, an empty result leaves the
    feed's last-request time exactly where it was (here 1000, with the clock
    at 2000); it is not moved backward. *)
Lemma getFeed_empty_result_keeps_lastRequest :
  let e := Sample.outside (parse_returns None false []) Sample.short in
  empty_result (feedparser_parse e "http://example.org/rss")
  /\ cachedFeeds Sample.cached_world !! "A"
     = Some (Sample.parsed [Sample.old_item])
  /\ fst (getFeed e "http://example.org/rss" "A" Sample.cached_world)
     = Returns (Sample.parsed [Sample.old_item])
  /\ lastRequest Sample.cached_world !! "A" = Some (1000 # 1)%Q
  /\ lastRequest (snd (getFeed e "http://example.org/rss" "A" Sample.cached_world))
       !! "A" = Some (1000 # 1)%Q.
Proof.
  intros e. split.
  - exists None, []. repeat split; discriminate.
  - repeat split; vm_compute; reflexivity.
Qed.

(** ** feed_refresh *)








(** ** ReconnectStrategy *)

Lemma int_jitter_bounds (b : Z) (random : Q) :
  0 <= b -> (0 <= random)%Q -> (random < 1)%Q ->
  0 <= int (inject_Z b * random) <= b.
Proof.
  intros Hb Hlo Hhi. unfold int.
  destruct random as [p q]. unfold Qle, Qlt in *. simpl in *.
  assert (Hp : 0 <= p < Z.pos q) by lia.
  split.
  - apply Z.quot_pos; nia.
  - apply Z.quot_le_upper_bound; nia.
Qed.

Lemma bound_monotone (self : ReconnectStrategy.t) (n m : Z) :
  0 <= n <= m ->
  ReconnectStrategy.bound self n <= ReconnectStrategy.bound self m.
Proof.
  intros Hnm. unfold ReconnectStrategy.bound.
  assert (2 ^ n <= 2 ^ m) by (apply Z.pow_le_mono_r; lia).
  lia.
Qed.

(** C5: with [0 <= min_interval <= max_interval], at every attempt count
    from 1 to 20 and for every jitter in [0, 1), [run] starts its timer with
    an interval that is the jittered bound clamped to
    [min_interval, max_interval], hence within these two; and the bound
    before jitter, [min(2**n - 1, max_interval)], does not decrease as the
    attempt count grows and never exceeds [max_interval]. *)
Theorem run_interval_within_bounds (self : ReconnectStrategy.t) (random : Q) :
  0 <= ReconnectStrategy.min_interval self
       <= ReconnectStrategy.max_interval self ->
  ReconnectStrategy._check_scheduled self = false ->
  1 <= ReconnectStrategy.attempt_count self <= 20 ->
  (0 <= random)%Q /\ (random < 1)%Q ->
  exists intvl : Z,
    snd (ReconnectStrategy.run random self) = Some intvl
    /\ intvl
       = clamp (int (inject_Z (ReconnectStrategy.bound self
                                 (ReconnectStrategy.attempt_count self))
                     * random))
               (ReconnectStrategy.min_interval self)
               (ReconnectStrategy.max_interval self)
    /\ ReconnectStrategy.min_interval self <= intvl
       <= ReconnectStrategy.max_interval self
    /\ forall m : Z,
         ReconnectStrategy.attempt_count self <= m <= 20 ->
         ReconnectStrategy.bound self (ReconnectStrategy.attempt_count self)
         <= ReconnectStrategy.bound self m
         <= ReconnectStrategy.max_interval self.
Proof.
  intros Hminmax Hsched Hn [Hlo Hhi].
  set (n := ReconnectStrategy.attempt_count self) in *.
  assert (Hb : 0 <= ReconnectStrategy.bound self n
               <= ReconnectStrategy.max_interval self).
  { unfold ReconnectStrategy.bound.
    assert (2 ^ 1 <= 2 ^ n) by (apply Z.pow_le_mono_r; lia).
    change (2 ^ 1) with 2 in *. lia. }
  pose proof (int_jitter_bounds (ReconnectStrategy.bound self n) random
                (proj1 Hb) Hlo Hhi) as Hj.
  exists (ReconnectStrategy.interval self n random).
  split.
  { unfold ReconnectStrategy.run. rewrite Hsched. reflexivity. }
  unfold ReconnectStrategy.interval, clamp.
  fold (ReconnectStrategy.bound self n).
  split; [lia|]. split; [lia|].
  intros m Hm. split.
  - apply bound_monotone. lia.
  - unfold ReconnectStrategy.bound. lia.
Qed.

Lemma run_interval_within_bounds_witness :
  exists intvl : Z,
    snd (ReconnectStrategy.run (1 # 2)
           {| ReconnectStrategy.min_interval := 10;
              ReconnectStrategy.max_interval := 300;
              ReconnectStrategy._check_scheduled := false;
              ReconnectStrategy.attempt_count := 7 |}) = Some intvl
    /\ 10 <= intvl <= 300.
Proof.
  destruct (run_interval_within_bounds
              {| ReconnectStrategy.min_interval := 10;
                 ReconnectStrategy.max_interval := 300;
                 ReconnectStrategy._check_scheduled := false;
                 ReconnectStrategy.attempt_count := 7 |} (1 # 2))
    as (intvl & Hrun & _ & Hbounds & _).
  - simpl. lia.
  - reflexivity.
  - simpl. lia.
  - split; vm_compute; [discriminate | reflexivity].
  - exists intvl. split; [exact Hrun | exact Hbounds].
Defined.

(** ** The queue consumer *)

(** The timer starts only in [run]; the consumer never gets there. *)
Lemma msq_queue_task_not_connected (a : Bot.answers) (delay : Q)
    (msg target : string) (self : Bot.t) :
  Bot.connected self = false ->
  Bot.msq_queue_task a delay (msg, target) self
  = match Bot._connect a with
    | Bot.connect_returns c =>
        (Returns tt,
         {| Bot.connected := c; Bot.channels := Bot.channels self;
            Bot.recon := Bot.recon self;
            Bot.trace := Bot.trace self
                         ++ [Bot.Print "Error: Not connected."; Bot.Connect;
                             Bot.Sleep delay] |})
    | Bot.connect_raises x =>
        (Raises x,
         {| Bot.connected := false; Bot.channels := Bot.channels self;
            Bot.recon := Bot.recon self;
            Bot.trace := Bot.trace self
                         ++ [Bot.Print "Error: Not connected."; Bot.Connect] |})
    end.
Proof.
  intros Hoff.
  unfold Bot.msq_queue_task, Bot.privmsg, Bot.jump_server, Bot.act.
  rewrite Hoff. simpl. rewrite Hoff.
  destruct (Bot._connect a) as [c | x]; simpl;
    repeat rewrite <- app_assoc; reflexivity.
Qed.

(** C6 (as the code has it): when [privmsg] finds the connection not
    established, the consumer prints the error and calls [jump_server],
    which, the connection being down, calls [_connect] at once: the
    reconnect strategy is not run and no timer is started.  The message is
    neither sent nor put back; if [_connect] returns, the consumer sleeps
    [delay] and goes on with the next message of the queue, and if it raises,
    the consumer is left by that exception. *)
Theorem consumer_not_connected (a : nat -> Bot.answers) (delay : Q) (k : nat)
    (msg target : string) (rest : list (string * string)) (self : Bot.t) :
  Bot.connected self = false ->
  Bot.privmsg target msg self = (Raises ServerNotConnectedError, self)
  /\ match Bot._connect (a k) with
     | Bot.connect_returns c =>
         Bot.msq_queue_tasks a delay k ((msg, target) :: rest) self
         = Bot.msq_queue_tasks a delay (S k) rest
             {| Bot.connected := c; Bot.channels := Bot.channels self;
                Bot.recon := Bot.recon self;
                Bot.trace := Bot.trace self
                             ++ [Bot.Print "Error: Not connected.";
                                 Bot.Connect; Bot.Sleep delay] |}
     | Bot.connect_raises x =>
         Bot.msq_queue_tasks a delay k ((msg, target) :: rest) self
         = (Raises x, rest,
            {| Bot.connected := false; Bot.channels := Bot.channels self;
               Bot.recon := Bot.recon self;
               Bot.trace := Bot.trace self
                            ++ [Bot.Print "Error: Not connected.";
                                Bot.Connect] |})
     end.
Proof.
  intros Hoff. split.
  - unfold Bot.privmsg. rewrite Hoff. reflexivity.
  - cbn [Bot.msq_queue_tasks].
    rewrite (msq_queue_task_not_connected (a k) delay msg target self Hoff).
    destruct (Bot._connect (a k)); reflexivity.
Qed.

Lemma consumer_not_connected_witness :
  Bot.msq_queue_tasks (fun _ => Sample.answers) (5 # 10)%Q 0
    [("first", "#news"); ("second", "#news")] Sample.offline_bot
  = (Returns tt, [],
     {| Bot.connected := false; Bot.channels := ["#news"];
        Bot.recon := Sample.strategy;
        Bot.trace := [Bot.Print "Error: Not connected."; Bot.Connect;
                      Bot.Sleep (5 # 10)%Q;
                      Bot.Print "Error: Not connected."; Bot.Connect;
                      Bot.Sleep (5 # 10)%Q] |}).
Proof.
  destruct (consumer_not_connected (fun _ => Sample.answers) (5 # 10)%Q 0
              "first" "#news" [("second", "#news")] Sample.offline_bot
              eq_refl) as [_ Hstep].
  cbv beta in Hstep.
  change (Bot._connect Sample.answers) with (Bot.connect_returns false) in Hstep.
  cbv iota in Hstep. rewrite Hstep. reflexivity.
Defined.

(** C6 as stated fails: after a send that found the connection down, the
    reconnect strategy is as it was (no check scheduled) and the trace holds
    no timer, whereas [on_disconnect] in the same state schedules a check and
    starts a timer. *)
Lemma consumer_does_not_run_the_strategy :
  Bot.connected Sample.offline_bot = false
  /\ snd (Bot.msq_queue_task Sample.answers (5 # 10)%Q ("first", "#news")
            Sample.offline_bot)
     = {| Bot.connected := false; Bot.channels := ["#news"];
          Bot.recon := Sample.strategy;
          Bot.trace := [Bot.Print "Error: Not connected."; Bot.Connect;
                        Bot.Sleep (5 # 10)%Q] |}
  /\ ReconnectStrategy._check_scheduled Sample.strategy = false
  /\ ReconnectStrategy._check_scheduled
       (Bot.recon (Bot.on_disconnect Sample.answers Sample.offline_bot)) = true
  /\ Bot.trace (Bot.on_disconnect Sample.answers Sample.offline_bot)
     = [Bot.StartTimer 10].
Proof. repeat split. Qed.

(** ** PeriodicExecutor *)

(** Iterations add up: what is still looping after [n] iterations goes on
    from where it stands. *)
Lemma run_from_waiting {State : Type}
    (_func : nat -> State -> result unit * State) (_finished : nat -> bool)
    (n : nat) :
  forall (k k' : nat) (s s' : State),
    PeriodicExecutor.run_from _func _finished n k s
    = (PeriodicExecutor.Waiting, k', s') ->
    forall m : nat,
      PeriodicExecutor.run_from _func _finished (n + m) k s
      = PeriodicExecutor.run_from _func _finished m k' s'.
Proof.
  induction n as [|n IH]; intros k k' s s' Hrun m; simpl in *.
  - injection Hrun as <- <-. reflexivity.
  - destruct (_finished k); [discriminate|].
    destruct (_func k s) as [[u|x] s1]; [|discriminate].
    apply (IH _ _ _ _ Hrun).
Qed.

(** C8 (as the code has it): [PeriodicExecutor.run] calls the function
    outside any handler.  After any number of iterations that returned, an
    iteration in which the function raises ends [run] by that exception:
    however many more iterations the thread is given, none starts.  Within
    the shared timer, a feed whose refresh raises, at whatever position of
    the batch once the feeds before it have returned, ends the batch by that
    exception in the state its own refresh left: the feeds after it are not
    refreshed. *)
Theorem run_is_left_by_the_exception :
  (forall (State : Type) (_func : nat -> State -> result unit * State)
          (_finished : nat -> bool) (n k k' : nat) (s s' s'' : State)
          (x : exception),
      PeriodicExecutor.run_from _func _finished n k s
      = (PeriodicExecutor.Waiting, k', s') ->
      _finished k' = false ->
      _func k' s' = (Raises x, s'') ->
      forall fuel : nat,
        PeriodicExecutor.run_from _func _finished (n + S fuel) k s
        = (PeriodicExecutor.Raised x, S k', s''))
  /\ (forall (config : Config) (e : env) (pre : list (string * Feed))
             (name : string) (feed : Feed) (rest : list (string * Feed))
             (w w1 w' : world) (x : exception),
         feed_refresh_oneTimer config e pre w = (Returns tt, w1) ->
         feed_refresh config e feed name w1 = (Raises x, w') ->
         feed_refresh_oneTimer config e (pre ++ (name, feed) :: rest) w
         = (Raises x, w')).
Proof.
  split.
  - intros State _func _finished n k k' s s' s'' x Hgood Hrun Hraise fuel.
    rewrite (run_from_waiting _func _finished n k k' s s' Hgood).
    simpl. rewrite Hrun, Hraise. reflexivity.
  - intros config e pre.
    induction pre as [|[name0 feed0] pre IH];
      intros name feed rest w w1 w' x Hpre Hraise.
    + injection Hpre as <-.
      simpl. unfold bind. rewrite Hraise. reflexivity.
    + simpl in Hpre |- *. unfold bind in Hpre |- *.
      destruct (feed_refresh config e feed0 name0 w) as [[[]|x0] w0];
        [|discriminate].
      apply (IH name feed rest w0 w1 w' x Hpre Hraise).
Qed.

Lemma run_is_left_by_the_exception_witness :
  let e := Sample.outside
             (parse_returns None true [Sample.new_item; Sample.old_item])
             Sample.short in
  let tick := fun _ : nat =>
                feed_refresh (Sample.config false None) e Sample.feed "A" in
  let e1 := Sample.outside (parse_returns None true [Sample.old_item])
              Sample.short in
  PeriodicExecutor.run_from tick (fun _ => false) (0 + 5) 0 Sample.cached_world
  = (PeriodicExecutor.Raised IndexError, 1%nat,
     snd (tick 0%nat Sample.cached_world))
  /\ feed_refresh_oneTimer (Sample.config true None) e1
       ([("A", Sample.feed)] ++ ("B", Sample.feed) :: [("C", Sample.feed)])
       Sample.cached_world
     = (Raises UnboundLocalError,
        snd (feed_refresh (Sample.config true None) e1 Sample.feed "B"
               (snd (feed_refresh (Sample.config true None) e1 Sample.feed
                       "A" Sample.cached_world)))).
Proof.
  intros e tick e1.
  destruct run_is_left_by_the_exception as [Hrun Hbatch].
  split.
  - apply (Hrun world tick (fun _ => false) 0%nat 0%nat 0%nat
             Sample.cached_world Sample.cached_world).
    + reflexivity.
    + reflexivity.
    + vm_compute. reflexivity.
  - apply (Hbatch (Sample.config true None) e1 [("A", Sample.feed)] "B"
             Sample.feed [("C", Sample.feed)] Sample.cached_world
             (snd (feed_refresh (Sample.config true None) e1 Sample.feed
                     "A" Sample.cached_world))).
    + vm_compute. reflexivity.
    + vm_compute. reflexivity.
Defined.

(** C8 as stated fails: the executor of feed "A", whose cache holds one item
    while the feed now has two, is given five iterations and never asked to
    stop; the first tick raises [IndexError] and no second one starts. *)
Lemma executor_does_not_survive_a_failing_tick :
  let e := Sample.outside
             (parse_returns None true [Sample.new_item; Sample.old_item])
             Sample.short in
  let tick := fun _ : nat =>
                feed_refresh (Sample.config false None) e Sample.feed "A" in
  fst (PeriodicExecutor.run tick (fun _ => false) 5 Sample.cached_world)
  = (PeriodicExecutor.Raised IndexError, 1%nat).
Proof. vm_compute. reflexivity. Qed.

(** ** shorten_url *)

(** X3: without a shortening service, [shorten_url] returns the URL it was
    given and changes nothing. *)
Lemma shorten_url_without_service (config : Config) (e : env)
    (long_url : string) (w : world) :
  service_url config = None ->
  shorten_url config e long_url w = (Returns long_url, w).
Proof. intros H. unfold shorten_url. rewrite H. reflexivity. Qed.

(** Were the caught exception to have the attributes the handler prints,
    the handler would return the long URL. *)
Lemma shorten_url_handler_with_attributes (config : Config) (e : env)
    (service long_url code msg : string) (c : exception) (w : world) :
  service_url config = Some service ->
  caught_by_shorten_url c = true ->
  requests_get e service long_url
  = get_raises {| error_class := c; error_code := Some code;
                  error_msg := Some msg |} ->
  fst (shorten_url config e long_url w) = Returns long_url.
Proof.
  intros Hs Hc Hget. unfold shorten_url.
  rewrite Hs, Hget. simpl. rewrite Hc. reflexivity.
Qed.

(** C7, at the failing input: a shortening service is configured and
    [requests.get] raises [requests.ConnectionError].  The handler reads
    [error.code], which that exception does not have, so [shorten_url]
    raises [AttributeError] instead of returning the long URL. *)
Theorem shorten_url_handler_raises :
  shorten_url (Sample.config false (Some "tinyurl.com"))
              (Sample.outside (parse_returns None true [])
                 (get_raises (requests_exception requests_ConnectionError)))
              "http://x/2" Sample.empty_world
  = (Raises AttributeError, Sample.empty_world).
Proof. reflexivity. Qed.

(** ** The change detector *)

(** C1, at the failing input: the cache of feed "A" holds the one item
    "Old Title" and the fetch returns "New Title" followed by "Old Title".
    The first loop reads [oldresults['entries'][1]], which does not exist:
    the tick raises [IndexError] and announces nothing, not even
    "New Title", whose key is not among the old ones. *)
Theorem feed_refresh_longer_feed_raises :
  let e := Sample.outside
             (parse_returns None true [Sample.new_item; Sample.old_item])
             Sample.short in
  ~ (canonize (title_link Sample.new_item)
       ∈ (list_to_set
            (map canonize (getHeadlines (Sample.parsed [Sample.old_item])))
          : gset headline_key))
  /\ fst (feed_refresh (Sample.config false None) e Sample.feed "A"
           Sample.cached_world) = Raises IndexError
  /\ msg_queue (snd (feed_refresh (Sample.config false None) e Sample.feed "A"
                      Sample.cached_world)) = [].
Proof.
  intros e. split; [|split].
  - vm_compute. intros H. discriminate H.
  - vm_compute. reflexivity.
  - vm_compute. reflexivity.
Qed.

(** X2: with startup announcements suppressed and nothing cached, a tick is
    the fetch alone: what [getFeed] stores is stored, and nothing is queued. *)
Lemma feed_refresh_startup_suppressed (config : Config) (e : env) (feed : Feed)
    (name : string) (w : world) :
  startup_announces (network config) = false ->
  cachedFeeds w !! name = None ->
  snd (feed_refresh config e feed name w) = snd (getFeed e (url feed) name w)
  /\ msg_queue (snd (feed_refresh config e feed name w)) = msg_queue w.
Proof.
  intros Hstartup Hnone.
  assert (Hsame : snd (feed_refresh config e feed name w)
                  = snd (getFeed e (url feed) name w)).
  { unfold feed_refresh, bind, get_world. rewrite Hstartup, Hnone. simpl.
    destruct (getFeed e (url feed) name w) as [[r|x] w']; reflexivity. }
  split; [exact Hsame|]. rewrite Hsame. apply getFeed_msg_queue.
Qed.

(** C4, at the failing input: startup announcements are enabled, nothing is
    cached for the feed, and the fetch returns one item with a title and a
    link.  [oldresults] was never bound, the first loop reads it, and the
    tick raises [UnboundLocalError] with nothing announced (the fetched
    result is cached all the same). *)
Theorem feed_refresh_first_run_raises :
  let e := Sample.outside (parse_returns None true [Sample.new_item])
                          Sample.short in
  fst (feed_refresh (Sample.config true None) e Sample.feed "A"
         Sample.empty_world) = Raises UnboundLocalError
  /\ msg_queue (snd (feed_refresh (Sample.config true None) e Sample.feed "A"
                      Sample.empty_world)) = []
  /\ cachedFeeds (snd (feed_refresh (Sample.config true None) e Sample.feed "A"
                        Sample.empty_world)) !! "A"
     = Some (Sample.parsed [Sample.new_item]).
Proof. intros e. repeat split; vm_compute; reflexivity. Qed.

(** ** What a tick may queue *)

Lemma queues_nothing {A : Type} (m : M A) :
  (forall w, msg_queue (snd (m w)) = msg_queue w) -> queues_at_most 0 m.
Proof.
  intros H w. exists []. rewrite app_nil_r. split; [apply H | reflexivity].
Qed.

Lemma queues_weaken {A : Type} (n n' : nat) (m : M A) :
  (n <= n')%nat -> queues_at_most n m -> queues_at_most n' m.
Proof.
  intros Hle H w. destruct (H w) as (msgs & Hq & Hlen).
  exists msgs. split; [exact Hq | lia].
Qed.

Lemma queues_bind {A B : Type} (n k : nat) (m : M A) (f : A -> M B) :
  queues_at_most n m ->
  (forall a, queues_at_most k (f a)) ->
  queues_at_most (n + k) (bind m f).
Proof.
  intros Hm Hf w. unfold bind.
  destruct (Hm w) as (msgs & Hq & Hlen).
  destruct (m w) as [[a|x] w1]; simpl in Hq.
  - destruct (Hf a w1) as (msgs' & Hq' & Hlen').
    exists (msgs ++ msgs'). rewrite Hq', Hq, app_assoc, length_app.
    split; [reflexivity | lia].
  - exists msgs. simpl. split; [exact Hq | lia].
Qed.

Lemma queues_lift {A : Type} (r : result A) : queues_at_most 0 (lift r).
Proof. apply queues_nothing. reflexivity. Qed.

Lemma queues_ret {A : Type} (a : A) : queues_at_most 0 (ret a).
Proof. apply queues_nothing. reflexivity. Qed.

Lemma queues_shorten_url (config : Config) (e : env) (long_url : string) :
  queues_at_most 0 (shorten_url config e long_url).
Proof.
  apply queues_nothing. intros w. unfold shorten_url.
  destruct (service_url config); [|reflexivity].
  destruct (requests_get e _ _) as [err | text]; [|reflexivity].
  destruct (caught_by_shorten_url _); [|reflexivity].
  destruct (error_code err); [|reflexivity].
  destruct (error_msg err); reflexivity.
Qed.

Lemma queues_queue_send (msg target : string) :
  queues_at_most 1 (queue_send msg target).
Proof.
  intros w. exists [(Str.strip msg, target)]. split; reflexivity.
Qed.

Lemma queues_queue_send_all (text : string) (chans : list string) :
  queues_at_most (length chans) (queue_send_all text chans).
Proof.
  induction chans as [|chan rest IH]; simpl.
  - apply queues_ret.
  - apply (queues_bind 1 (length rest)); [apply queues_queue_send|].
    intros _. exact IH.
Qed.

Lemma queues_on_rss_entry (config : Config) (feed : Feed) (text : string) :
  queues_at_most (per_announcement config feed)
                 (on_rss_entry config (channel feed) text).
Proof.
  unfold on_rss_entry, per_announcement.
  destruct (Str.truthy (channel feed)).
  - apply queues_queue_send.
  - apply queues_queue_send_all.
Qed.

Lemma queues_announce_one (config : Config) (e : env) (feed : Feed)
    (name : string) (newresults : results) (i : nat) (title : string) :
  queues_at_most (per_announcement config feed)
                 (announce_one config e feed name newresults i title).
Proof.
  unfold announce_one.
  apply (queues_bind 0); [apply queues_lift | intros new_entries].
  apply (queues_bind 0); [apply queues_lift | intros entry_new].
  apply (queues_bind 0); [apply queues_shorten_url | intros link].
  apply (queues_bind 0); [apply queues_lift | intros feedName].
  apply (queues_bind 0); [apply queues_lift | intros feedTitle].
  apply queues_on_rss_entry.
Qed.

Lemma queues_announce (config : Config) (e : env) (feed : Feed)
    (name : string) (newresults : results)
    (newheadlines : list (option headline)) :
  forall i : nat,
    queues_at_most (per_announcement config feed * length newheadlines)
                   (announce config e feed name newresults i newheadlines).
Proof.
  induction newheadlines as [|h rest IH]; intros i; simpl.
  - rewrite Nat.mul_0_r. apply queues_ret.
  - destruct h as [[title l]|].
    + rewrite Nat.mul_succ_r, Nat.add_comm.
      apply queues_bind; [|intros _; apply IH].
      destruct (match l with Some s => Str.truthy s | None => false end).
      * apply queues_announce_one.
      * apply (queues_weaken 0); [lia | apply queues_ret].
    + apply (queues_weaken (per_announcement config feed * length rest));
        [lia | apply IH].
Qed.

Lemma mark_seen_length (oldresults : option results) (newresults : results)
    (oldheadlines : gset headline_key) (todo : list headline) :
  forall (i : nat) (newheadlines out : list (option headline)),
    mark_seen oldresults newresults oldheadlines i todo newheadlines
    = Returns out ->
    length out = length newheadlines.
Proof.
  induction todo as [|h rest IH]; intros i newheadlines out; simpl.
  - intros H. injection H as <-. reflexivity.
  - destruct (seen_at oldresults newresults oldheadlines i h) as [seen|x];
      [|discriminate].
    intros H. apply IH in H. rewrite H.
    destruct seen; [apply length_insert | reflexivity].
Qed.

(** A tick queues at most one round of messages for each titled item of the
    result [getFeed] returned, and none when [getFeed] raised. *)
Lemma feed_refresh_queue (config : Config) (e : env) (feed : Feed)
    (name : string) (w : world) :
  exists msgs : list (string * string),
    msg_queue (snd (feed_refresh config e feed name w)) = msg_queue w ++ msgs
    /\ match fst (getFeed e (url feed) name w) with
       | Returns r =>
           (length msgs
            <= per_announcement config feed
               * length (List.filter has_title (getitem_items r)))%nat
       | Raises _ => msgs = []
       end.
Proof.
  pose proof (getFeed_msg_queue e (url feed) name w) as Hq.
  assert (Hnone : forall w1 : world, msg_queue w1 = msg_queue w ->
            forall n : nat,
              exists msgs : list (string * string),
                msg_queue w1 = msg_queue w ++ msgs /\ (length msgs <= n)%nat).
  { intros w1 H n. exists []. rewrite app_nil_r. split; [exact H | simpl; lia]. }
  unfold feed_refresh, bind, get_world.
  destruct (negb _ && _); cbv beta;
    destruct (getFeed e (url feed) name w) as [[r|x] w1]; simpl in Hq |- *.
  - apply Hnone, Hq.
  - exists []. rewrite app_nil_r. auto.
  - destruct (failure_title (getHeadlines r)); [apply Hnone, Hq|].
    unfold lift.
    match goal with
    | |- context [mark_seen ?o ?n ?keys ?i ?todo ?hs] =>
        destruct (mark_seen o n keys i todo hs) as [out|x] eqn:Hmark
    end; [|apply Hnone, Hq].
    apply mark_seen_length in Hmark.
    rewrite length_map, getHeadlines_filter, length_map in Hmark.
    destruct out as [|h out']; [apply Hnone, Hq|].
    destruct (queues_announce config e feed name r (h :: out') 0 w1)
      as (msgs & Hmsgs & Hlen).
    exists msgs. rewrite Hmsgs, Hq. split; [reflexivity|].
    rewrite Hmark in Hlen. exact Hlen.
  - exists []. rewrite app_nil_r. auto.
Qed.








(** The shift at work in a whole tick: the fetched feed starts with an item
    without a title; the one announcement made carries the title of the
    second item and the link of the first (the closing underline code is
    blank to [strip], which [queue_send] applies). *)
Example feed_refresh_pairs_title_with_shifted_link :
  let e := Sample.outside
             (parse_returns None true [Sample.untitled_item; Sample.new_item])
             Sample.short in
  fst (feed_refresh (Sample.config false None) e Sample.feed "A"
         Sample.cached_world2) = Returns tt
  /\ msg_queue (snd (feed_refresh (Sample.config false None) e Sample.feed "A"
                       Sample.cached_world2))
     = [(String "003"%char "04A" +:+ String "003"%char " "
         +:+ String "003"%char "02New Title" +:+ String "003"%char " "
         +:+ String "031"%char "http://x/untitled",
         "#news")].
Proof. intros e. split; vm_compute; reflexivity. Qed.

(** ** The first loop of feed_refresh, when it completes *)

(** What [seen_at] computes once both entries at index [i] exist. *)
Lemma seen_at_both_entries (old newresults : results)
    (oldheadlines : gset headline_key) (i : nat) (h : headline)
    (old_entries new_entries : list entry) (entry_old entry_new : entry) :
  getitem_entries old = Returns old_entries ->
  old_entries !! i = Some entry_old ->
  getitem_entries newresults = Returns new_entries ->
  new_entries !! i = Some entry_new ->
  seen_at (Some old) newresults oldheadlines i h
  = if decide (canonize h ∈ oldheadlines)
    then time_ge (dict_get (updated_parsed entry_old)
                           (dict_get (published_parsed entry_new) None))
                 (dict_get (updated_parsed entry_new)
                           (dict_get (published_parsed entry_new) None))
    else Returns false.
Proof.
  intros Ho Heo Hn Hen. unfold seen_at, getitem_list.
  rewrite Ho, Heo, Hn, Hen. reflexivity.
Qed.

Lemma mark_seen_invariant (oldresults : option results) (newresults : results)
    (oldheadlines : gset headline_key) (todo : list headline) :
  forall (i : nat) (newheadlines out : list (option headline)),
    (forall (k : nat) (h : headline),
        todo !! k = Some h -> newheadlines !! (i + k)%nat = Some (Some h)) ->
    mark_seen oldresults newresults oldheadlines i todo newheadlines
    = Returns out ->
    (forall j : nat, (j < i)%nat -> out !! j = newheadlines !! j)
    /\ (forall (k : nat) (h : headline),
           todo !! k = Some h ->
           exists seen : bool,
             seen_at oldresults newresults oldheadlines (i + k) h
             = Returns seen
             /\ out !! (i + k)%nat = Some (if seen then None else Some h)).
Proof.
  induction todo as [|h rest IH]; intros i newheadlines out Hinv; simpl.
  - intros H. injection H as <-. split; [reflexivity|].
    intros k h Hk. rewrite lookup_nil in Hk. discriminate.
  - destruct (seen_at oldresults newresults oldheadlines i h)
      as [seen|x] eqn:Hseen; [|discriminate].
    set (marked := if seen then <[i:=None]> newheadlines else newheadlines).
    intros Hrest.
    assert (Hother : forall j : nat, j <> i -> marked !! j = newheadlines !! j).
    { intros j Hj. unfold marked. destruct seen; [|reflexivity].
      apply list_lookup_insert_ne. congruence. }
    assert (Hhere : marked !! i = Some (if seen then None else Some h)).
    { pose proof (Hinv 0%nat h eq_refl) as H0. rewrite Nat.add_0_r in H0.
      unfold marked. destruct seen; [|exact H0].
      apply list_lookup_insert_eq. eapply lookup_lt_Some, H0. }
    destruct (IH (S i) marked out) as [Hbefore Hmarks]; [|exact Hrest|].
    { intros k h' Hk. rewrite Hother by lia.
      replace (S i + k)%nat with (i + S k)%nat by lia.
      apply Hinv. exact Hk. }
    split.
    + intros j Hj. rewrite Hbefore by lia. apply Hother. lia.
    + intros [|k] h' Hk.
      * simpl in Hk. injection Hk as <-. rewrite Nat.add_0_r.
        exists seen. split; [exact Hseen|].
        rewrite Hbefore by lia. exact Hhere.
      * simpl in Hk. replace (i + S k)%nat with (S i + k)%nat by lia.
        apply Hmarks. exact Hk.
Qed.

(** What a round that returns has read and decided: both results have an
    entry at the index; a headline whose key is not among the old ones is
    not seen, whatever the dates; for a known key both times are there and
    the answer is [time_old >= time_new]. *)
Lemma seen_at_returns (oldresults : option results) (newresults : results)
    (oldheadlines : gset headline_key) (i : nat) (h : headline)
    (seen : bool) :
  seen_at oldresults newresults oldheadlines i h = Returns seen ->
  exists (old : results) (old_entries new_entries : list entry)
         (entry_old entry_new : entry),
    oldresults = Some old
    /\ getitem_entries old = Returns old_entries
    /\ old_entries !! i = Some entry_old
    /\ getitem_entries newresults = Returns new_entries
    /\ new_entries !! i = Some entry_new
    /\ ((~ (canonize h ∈ oldheadlines) /\ seen = false)
        \/ (canonize h ∈ oldheadlines
            /\ exists time_old time_new : struct_time,
                 dict_get (updated_parsed entry_old)
                          (dict_get (published_parsed entry_new) None)
                 = Some time_old
                 /\ entry_time entry_new = Some time_new
                 /\ seen = tuple_ge time_old time_new)).
Proof.
  unfold seen_at, getitem_list, entry_time.
  destruct oldresults as [old|]; [|discriminate].
  destruct (getitem_entries old) as [old_entries|x] eqn:Ho; [|discriminate].
  destruct (old_entries !! i) as [entry_old|] eqn:Heo; [|discriminate].
  destruct (getitem_entries newresults) as [new_entries|x] eqn:Hn;
    [|discriminate].
  destruct (new_entries !! i) as [entry_new|] eqn:Hen; [|discriminate].
  intros Hseen.
  exists old, old_entries, new_entries, entry_old, entry_new.
  repeat (split; [first [reflexivity | assumption]|]).
  destruct (decide (canonize h ∈ oldheadlines)) as [Hin|Hout].
  - right. split; [exact Hin|].
    destruct (dict_get (updated_parsed entry_old)
                (dict_get (published_parsed entry_new) None)) as [time_old|];
      [|discriminate].
    destruct (dict_get (updated_parsed entry_new)
                (dict_get (published_parsed entry_new) None)) as [time_new|];
      [|discriminate].
    exists time_old, time_new. simpl in Hseen. injection Hseen as <-.
    auto.
  - left. split; [exact Hout|]. congruence.
Qed.

(** X1: when the first loop completes, the list it leaves has the length of
    the new headlines, and every round found an entry at the headline's own
    index in the old and in the new result.  A headline whose canonical key
    is not in the old key set is kept in place.  For a headline whose key is
    in the set, [time_old] (the old entry's [updated_parsed], or else the
    new entry's [published_parsed]) and [time_new] are both there, and the
    headline is overwritten with [None] exactly when
    [time_old >= time_new]; otherwise it is kept in place. *)
Lemma mark_seen_returns (oldresults : option results) (newresults : results)
    (oldheadlines : gset headline_key) (hs : list headline)
    (out : list (option headline)) :
  mark_seen oldresults newresults oldheadlines 0 hs (map Some hs)
  = Returns out ->
  length out = length hs
  /\ forall (i : nat) (h : headline),
       hs !! i = Some h ->
       exists (old : results) (old_entries new_entries : list entry)
              (entry_old entry_new : entry),
         oldresults = Some old
         /\ getitem_entries old = Returns old_entries
         /\ old_entries !! i = Some entry_old
         /\ getitem_entries newresults = Returns new_entries
         /\ new_entries !! i = Some entry_new
         /\ ((~ (canonize h ∈ oldheadlines) /\ out !! i = Some (Some h))
             \/ (canonize h ∈ oldheadlines
                 /\ exists time_old time_new : struct_time,
                      dict_get (updated_parsed entry_old)
                               (dict_get (published_parsed entry_new) None)
                      = Some time_old
                      /\ dict_get (updated_parsed entry_new)
                                  (dict_get (published_parsed entry_new) None)
                         = Some time_new
                      /\ out !! i
                         = Some (if tuple_ge time_old time_new
                                 then None else Some h))).
Proof.
  intros Hmark. split.
  - rewrite (mark_seen_length _ _ _ _ _ _ _ Hmark). apply length_map.
  - intros i h Hi.
    destruct (mark_seen_invariant oldresults newresults oldheadlines hs 0
                (map Some hs) out) as [_ Hmarks]; [|exact Hmark|].
    { intros k h' Hk. simpl. rewrite list_lookup_fmap, Hk. reflexivity. }
    destruct (Hmarks i h Hi) as (seen & Hseen & Hout). simpl in Hseen, Hout.
    destruct (seen_at_returns _ _ _ _ _ _ Hseen)
      as (old & oes & nes & eo & en & Ho & Hoes & Heo & Hnes & Hen & Hcase).
    exists old, oes, nes, eo, en.
    repeat (split; [assumption|]).
    destruct Hcase as [[Hnot ->] | (Hin & t_old & t_new & Hto & Htn & ->)].
    + left. split; [exact Hnot | exact Hout].
    + right. split; [exact Hin|].
      exists t_old, t_new. repeat (split; [assumption|]). exact Hout.
Qed.

(** The first loop raises as soon as one round does. *)
Lemma mark_seen_raises (oldresults : option results) (newresults : results)
    (oldheadlines : gset headline_key) (todo : list headline) :
  forall (i : nat) (newheadlines : list (option headline)) (k : nat)
         (h : headline) (x : exception),
    todo !! k = Some h ->
    seen_at oldresults newresults oldheadlines (i + k) h = Raises x ->
    exists x' : exception,
      mark_seen oldresults newresults oldheadlines i todo newheadlines
      = Raises x'.
Proof.
  induction todo as [|h0 rest IH]; intros i newheadlines k h x Hk Hraise.
  - rewrite lookup_nil in Hk. discriminate.
  - simpl. destruct k as [|k].
    + simpl in Hk. injection Hk as ->. rewrite Nat.add_0_r in Hraise.
      rewrite Hraise. eauto.
    + destruct (seen_at oldresults newresults oldheadlines i h0); [|eauto].
      simpl in Hk. apply (IH (S i) _ k h x Hk).
      replace (S i + k)%nat with (i + S k)%nat by lia. exact Hraise.
Qed.

(** A feed of unchanged length: the new item is announced, the known one is
    not. *)
Example feed_refresh_same_length :
  let e := Sample.outside
             (parse_returns None true [Sample.new_item; Sample.old_item])
             Sample.short in
  fst (feed_refresh (Sample.config false None) e Sample.feed "A"
         Sample.cached_world2) = Returns tt
  /\ msg_queue (snd (feed_refresh (Sample.config false None) e Sample.feed "A"
                      Sample.cached_world2))
     = [(String "003"%char "04A" +:+ String "003"%char " "
         +:+ String "003"%char "02New Title" +:+ String "003"%char " "
         +:+ String "031"%char "http://x/2",
         "#news")].
Proof. intros e. split; vm_compute; reflexivity. Qed.

(** ** When a tick raises *)


(** X6: with startup announcements enabled and nothing cached, a tick that
    gets past the guard with at least one headline raises
    [UnboundLocalError] and queues nothing. *)
Lemma feed_refresh_first_run_unbound (config : Config) (e : env)
    (feed : Feed) (name : string) (w w1 : world) (r : results) :
  startup_announces (network config) = true ->
  cachedFeeds w !! name = None ->
  getFeed e (url feed) name w = (Returns r, w1) ->
  failure_title (getHeadlines r) = None ->
  getHeadlines r <> [] ->
  feed_refresh config e feed name w = (Raises UnboundLocalError, w1)
  /\ msg_queue w1 = msg_queue w.
Proof.
  intros Hstartup Hnone Hget Hguard Hheadlines.
  pose proof (getFeed_msg_queue e (url feed) name w) as Hq.
  rewrite Hget in Hq. simpl in Hq. split; [|exact Hq].
  unfold feed_refresh, bind, get_world.
  rewrite Hstartup, Hnone. simpl. rewrite Hget, Hguard.
  destruct (getHeadlines r) as [|h hs]; [contradiction|]. reflexivity.
Qed.

(** X7: with a shortening service configured, whenever [requests.get]
    raises one of the three exceptions the handler catches, the handler
    itself raises [AttributeError]; the URL is not returned. *)
Lemma shorten_url_caught_raises (config : Config) (e : env)
    (service long_url : string) (c : exception) (w : world) :
  service_url config = Some service ->
  caught_by_shorten_url c = true ->
  requests_get e service long_url = get_raises (requests_exception c) ->
  shorten_url config e long_url w = (Raises AttributeError, w).
Proof.
  intros Hservice Hcaught Hget. unfold shorten_url.
  rewrite Hservice, Hget. simpl. rewrite Hcaught. reflexivity.
Qed.

(** ** Instances of the lemmas above *)

Lemma feed_refresh_startup_suppressed_witness :
  let e := Sample.outside (parse_returns None true [Sample.new_item])
                          Sample.short in
  snd (feed_refresh (Sample.config false None) e Sample.feed "A"
         Sample.empty_world)
  = snd (getFeed e (url Sample.feed) "A" Sample.empty_world)
  /\ msg_queue (snd (feed_refresh (Sample.config false None) e Sample.feed "A"
                      Sample.empty_world)) = [].
Proof.
  intros e.
  apply (feed_refresh_startup_suppressed (Sample.config false None) e
           Sample.feed "A" Sample.empty_world); reflexivity.
Defined.

Lemma shorten_url_without_service_witness :
  shorten_url (Sample.config false None)
              (Sample.outside (parse_returns None true []) Sample.short)
              "http://x/2" Sample.empty_world
  = (Returns "http://x/2", Sample.empty_world).
Proof.
  apply (shorten_url_without_service (Sample.config false None)). reflexivity.
Defined.

Lemma mark_seen_returns_witness :
  let newresults := Sample.parsed [Sample.new_item; Sample.old_item] in
  let old := Sample.parsed [Sample.old_item;
                            Sample.item "Older Title" "http://x/0" Sample.day1] in
  let keys : gset headline_key :=
    list_to_set (map canonize (getHeadlines old)) in
  let h : headline := ("Old Title", Some "http://x/1") in
  let out := [Some ("New Title", Some "http://x/2"); None] in
  exists (old' : results) (old_entries new_entries : list entry)
         (entry_old entry_new : entry),
    Some old = Some old'
    /\ getitem_entries old' = Returns old_entries
    /\ old_entries !! 1%nat = Some entry_old
    /\ getitem_entries newresults = Returns new_entries
    /\ new_entries !! 1%nat = Some entry_new
    /\ ((~ (canonize h ∈ keys) /\ out !! 1%nat = Some (Some h))
        \/ (canonize h ∈ keys
            /\ exists time_old time_new : struct_time,
                 dict_get (updated_parsed entry_old)
                          (dict_get (published_parsed entry_new) None)
                 = Some time_old
                 /\ dict_get (updated_parsed entry_new)
                             (dict_get (published_parsed entry_new) None)
                    = Some time_new
                 /\ out !! 1%nat
                    = Some (if tuple_ge time_old time_new
                            then None else Some h))).
Proof.
  intros newresults old keys h out.
  apply (mark_seen_returns (Some old) newresults keys
           (getHeadlines newresults) out).
  - vm_compute. reflexivity.
  - reflexivity.
Defined.


Lemma feed_refresh_first_run_unbound_witness :
  let e := Sample.outside (parse_returns None true [Sample.new_item])
                          Sample.short in
  feed_refresh (Sample.config true None) e Sample.feed "A" Sample.empty_world
  = (Raises UnboundLocalError,
     snd (getFeed e (url Sample.feed) "A" Sample.empty_world))
  /\ msg_queue (snd (getFeed e (url Sample.feed) "A" Sample.empty_world)) = [].
Proof.
  intros e.
  apply (feed_refresh_first_run_unbound (Sample.config true None) e
           Sample.feed "A" Sample.empty_world
           (snd (getFeed e (url Sample.feed) "A" Sample.empty_world))
           (Sample.parsed [Sample.new_item])).
  - reflexivity.
  - reflexivity.
  - vm_compute. reflexivity.
  - reflexivity.
  - discriminate.
Defined.

Lemma shorten_url_caught_raises_witness :
  shorten_url (Sample.config false (Some "v.gd"))
              (Sample.outside (parse_returns None true [])
                 (get_raises (requests_exception requests_Timeout)))
              "http://x/2" Sample.empty_world
  = (Raises AttributeError, Sample.empty_world).
Proof.
  apply (shorten_url_caught_raises (Sample.config false (Some "v.gd")) _
           "https://v.gd/create.php?format=simple&" "http://x/2"
           requests_Timeout); reflexivity.
Defined.

(** * Further properties *)

(** ** getFeed: the cache *)

(** X8: [getFeed] raises in one case only: [feedparser.parse] itself raised
    something other than an SGML parse error or a socket timeout; what it
    then raises is [UnboundLocalError], and the state is untouched. *)
Theorem getFeed_raises_only_unbound (e : env) (url name : string) (w : world)
    (x : exception) :
  fst (getFeed e url name w) = Raises x ->
  x = UnboundLocalError
  /\ snd (getFeed e url name w) = w
  /\ exists x' : exception,
       feedparser_parse e url = parse_raises x'
       /\ x' <> SGMLParseError /\ x' <> socket_timeout.
Proof.
  unfold getFeed.
  destruct (feedparser_parse e url) as [x' | bozo is_feed es].
  - destruct x'; simpl; try discriminate;
      intros H; injection H as <-;
      (split; [reflexivity|]); (split; [reflexivity|]);
      eexists; (split; [reflexivity|]); split; discriminate.
  - assert (Hstore : forall r, fst (getFeed_store e name r is_feed w) <> Raises x).
    { intros r. unfold getFeed_store, bind, get_world, set_cache, print,
        set_lastRequest, ret.
      destruct is_feed; simpl.
      - rewrite lookup_insert_eq. discriminate.
      - destruct (cachedFeeds w !! name); discriminate. }
    destruct bozo as [x'|]; [destruct x'|]; simpl; try discriminate;
      intros H; exfalso; exact (Hstore _ H).
Qed.

Lemma getFeed_raises_only_unbound_witness :
  let e := Sample.outside (parse_raises KeyError) Sample.short in
  UnboundLocalError = UnboundLocalError
  /\ snd (getFeed e "http://example.org/rss" "A" Sample.cached_world)
     = Sample.cached_world
  /\ exists x' : exception,
       feedparser_parse e "http://example.org/rss" = parse_raises x'
       /\ x' <> SGMLParseError /\ x' <> socket_timeout.
Proof.
  intros e.
  apply (getFeed_raises_only_unbound e "http://example.org/rss" "A"
           Sample.cached_world UnboundLocalError).
  reflexivity.
Defined.

Lemma getFeed_other_feeds (e : env) (url name other : string) (w : world) :
  other <> name ->
  cachedFeeds (snd (getFeed e url name w)) !! other = cachedFeeds w !! other
  /\ lastRequest (snd (getFeed e url name w)) !! other
     = lastRequest w !! other
  /\ (is_Some (cachedFeeds w !! name) ->
      is_Some (cachedFeeds (snd (getFeed e url name w)) !! name)).
Proof.
  intros Hother. unfold getFeed.
  assert (Hsame : forall r : result results,
            cachedFeeds (snd (r, w)) !! other = cachedFeeds w !! other
            /\ lastRequest (snd (r, w)) !! other = lastRequest w !! other
            /\ (is_Some (cachedFeeds w !! name) ->
                is_Some (cachedFeeds (snd (r, w)) !! name))).
  { intros r. simpl. auto. }
  assert (Hstore : forall r is_feed,
            cachedFeeds (snd (getFeed_store e name r is_feed w)) !! other
            = cachedFeeds w !! other
            /\ lastRequest (snd (getFeed_store e name r is_feed w)) !! other
               = lastRequest w !! other
            /\ (is_Some (cachedFeeds w !! name) ->
                is_Some (cachedFeeds (snd (getFeed_store e name r is_feed w))
                           !! name))).
  { intros r is_feed.
    unfold getFeed_store, bind, get_world, set_cache, print,
      set_lastRequest, ret.
    destruct is_feed; simpl.
    - rewrite lookup_insert_eq. simpl.
      rewrite !lookup_insert_ne by congruence.
      rewrite lookup_insert_eq. eauto.
    - destruct (cachedFeeds w !! name) as [cached|] eqn:Hc; simpl.
      + rewrite Hc. eauto.
      + rewrite lookup_insert_ne by congruence.
        split; [reflexivity|]. split; [reflexivity|].
        intros [? H]. discriminate H. }
  destruct (feedparser_parse e url) as [x | bozo is_feed es].
  - destruct x; apply Hsame.
  - destruct bozo as [x|]; [destruct x|];
      first [apply Hstore | apply Hsame].
Qed.

(** X9: [getFeed] for one feed never touches what is stored for another,
    and never drops the feed's own cached content. *)
Theorem getFeed_frame (e : env) (url name other : string) (w : world) :
  other <> name ->
  cachedFeeds (snd (getFeed e url name w)) !! other = cachedFeeds w !! other
  /\ lastRequest (snd (getFeed e url name w)) !! other
     = lastRequest w !! other
  /\ (is_Some (cachedFeeds w !! name) ->
      is_Some (cachedFeeds (snd (getFeed e url name w)) !! name)).
Proof. exact (getFeed_other_feeds e url name other w). Qed.

Lemma getFeed_frame_witness :
  let e := Sample.outside (parse_returns None true [Sample.new_item])
                          Sample.short in
  cachedFeeds (snd (getFeed e "http://example.org/b" "B" Sample.cached_world))
    !! "A" = Some (Sample.parsed [Sample.old_item])
  /\ lastRequest (snd (getFeed e "http://example.org/b" "B"
                         Sample.cached_world)) !! "A" = Some (1000 # 1)%Q.
Proof.
  intros e.
  destruct (getFeed_frame e "http://example.org/b" "B" "A" Sample.cached_world)
    as (Hc & Hl & _).
  - discriminate.
  - split; [exact Hc | exact Hl].
Defined.

(** X10: after a good fetch, a later fetch with an empty result returns the
    content of the good one, and the feed's last-request time is still the
    time of the good fetch. *)
Theorem getFeed_falls_back_on_last_good (e1 e2 : env) (url name : string)
    (w : world) (r : results) :
  good_fetch (feedparser_parse e1 url) r ->
  empty_result (feedparser_parse e2 url) ->
  fst (getFeed e2 url name (snd (getFeed e1 url name w))) = Returns r
  /\ lastRequest (snd (getFeed e2 url name (snd (getFeed e1 url name w))))
       !! name = Some (time_time e1)
  /\ cachedFeeds (snd (getFeed e2 url name (snd (getFeed e1 url name w))))
       !! name = Some r.
Proof.
  intros Hgood (bozo & es & Ho & Hsgml & Htimeout).
  rewrite (getFeed_good_fetch e1 url name w r Hgood). simpl.
  assert (Hstore : forall w1,
            getFeed e2 url name w1
            = getFeed_store e2 name (FeedParserDict bozo false es) false w1).
  { intros w1. unfold getFeed. rewrite Ho.
    destruct bozo as [x|]; [destruct x|]; try reflexivity; congruence. }
  rewrite Hstore.
  unfold getFeed_store, bind, get_world, print, ret. simpl.
  rewrite lookup_insert_eq. simpl.
  rewrite !lookup_insert_eq. auto.
Qed.

Lemma getFeed_falls_back_on_last_good_witness :
  let e1 := Sample.outside (parse_returns None true [Sample.new_item])
                           Sample.short in
  let e2 := Sample.outside (parse_returns None false []) Sample.short in
  fst (getFeed e2 "http://example.org/rss" "A"
         (snd (getFeed e1 "http://example.org/rss" "A" Sample.empty_world)))
  = Returns (Sample.parsed [Sample.new_item]).
Proof.
  intros e1 e2.
  destruct (getFeed_falls_back_on_last_good e1 e2 "http://example.org/rss" "A"
              Sample.empty_world (Sample.parsed [Sample.new_item]))
    as (Hret & _).
  - exists None, [Sample.new_item]. repeat split; try discriminate.
  - exists None, []. repeat split; discriminate.
  - exact Hret.
Defined.

(** ** feed_refresh on a feed that did not change *)

Lemma tuple_ge_refl (t : struct_time) : tuple_ge t t = true.
Proof.
  induction t as [|x t IH]; simpl; [reflexivity|].
  rewrite Z.eqb_refl. exact IH.
Qed.

(** A round of the first loop on an entry both results hold at the index:
    it returns, or it raises [TypeError]. *)
Lemma seen_at_same_entry (bozo bozo' : option exception) (f f' : bool)
    (es : list entry) (keys : gset headline_key) (k : nat) (h : headline)
    (d : entry) :
  es !! k = Some d ->
  seen_at (Some (FeedParserDict bozo f es)) (FeedParserDict bozo' f' es)
          keys k h
  = if decide (canonize h ∈ keys)
    then match entry_time d with
         | Some _ => Returns true
         | None => Raises TypeError
         end
    else Returns false.
Proof.
  intros Hd.
  rewrite (seen_at_both_entries (FeedParserDict bozo f es)
             (FeedParserDict bozo' f' es) keys k h es es d d
             eq_refl Hd eq_refl Hd).
  destruct (decide _); [|reflexivity].
  fold (entry_time d). destruct (entry_time d) as [t|]; [|reflexivity].
  simpl. rewrite tuple_ge_refl. reflexivity.
Qed.

Lemma mark_seen_total (oldresults : option results) (newresults : results)
    (oldheadlines : gset headline_key) (todo : list headline) :
  forall (i : nat) (newheadlines : list (option headline)),
    (forall (k : nat) (h : headline),
        todo !! k = Some h ->
        exists seen : bool,
          seen_at oldresults newresults oldheadlines (i + k) h
          = Returns seen) ->
    exists out : list (option headline),
      mark_seen oldresults newresults oldheadlines i todo newheadlines
      = Returns out.
Proof.
  induction todo as [|h rest IH]; intros i newheadlines Hall; simpl.
  - eauto.
  - destruct (Hall 0%nat h eq_refl) as [seen Hseen].
    rewrite Nat.add_0_r in Hseen. rewrite Hseen.
    apply IH. intros k h' Hk.
    replace (S i + k)%nat with (i + S k)%nat by lia.
    apply Hall. exact Hk.
Qed.

(** The first exception of the first loop is the exception of a round. *)
Lemma mark_seen_raises_first (oldresults : option results)
    (newresults : results) (oldheadlines : gset headline_key)
    (todo : list headline) :
  forall (i : nat) (newheadlines : list (option headline)) (x : exception),
    mark_seen oldresults newresults oldheadlines i todo newheadlines
    = Raises x ->
    exists (k : nat) (h : headline),
      todo !! k = Some h
      /\ seen_at oldresults newresults oldheadlines (i + k) h = Raises x.
Proof.
  induction todo as [|h rest IH]; intros i newheadlines x; simpl.
  - discriminate.
  - destruct (seen_at oldresults newresults oldheadlines i h)
      as [seen|x'] eqn:Hseen.
    + intros H. destruct (IH _ _ _ H) as (k & h' & Hk & Hraise).
      exists (S k), h'. split; [exact Hk|].
      replace (i + S k)%nat with (S i + k)%nat by lia. exact Hraise.
    + intros H. injection H as <-. exists 0%nat, h.
      rewrite Nat.add_0_r. auto.
Qed.

Lemma announce_nothing (config : Config) (e : env) (feed : Feed)
    (name : string) (newresults : results)
    (newheadlines : list (option headline)) :
  Forall (fun h => h = None) newheadlines ->
  forall (i : nat) (w : world),
    announce config e feed name newresults i newheadlines w = (Returns tt, w).
Proof.
  induction 1 as [|h rest -> _ IH]; intros i w; simpl.
  - reflexivity.
  - apply IH.
Qed.

Lemma headline_key_known (hs : list headline) (k : nat) (h : headline) :
  hs !! k = Some h ->
  canonize h ∈ (list_to_set (map canonize hs) : gset headline_key).
Proof.
  intros Hk. apply elem_of_list_to_set.
  apply (list_elem_of_fmap_2 canonize). eapply list_elem_of_lookup_2, Hk.
Qed.

(** X11: polling again a feed that did not change announces nothing, as
    long as every entry the first loop reads carries a date: the tick
    returns and the queue is as it was. *)
Theorem feed_refresh_unchanged_feed (config : Config) (e : env) (feed : Feed)
    (name : string) (w : world) (bozo : option exception) (r : results)
    (es : list entry) :
  cachedFeeds w !! name = Some (FeedParserDict bozo true es) ->
  good_fetch (feedparser_parse e (url feed)) r ->
  getitem_items r = es ->
  Forall (fun d => is_Some (entry_time d))
         (take (length (getHeadlines r)) es) ->
  fst (feed_refresh config e feed name w) = Returns tt
  /\ msg_queue (snd (feed_refresh config e feed name w)) = msg_queue w.
Proof.
  intros Hold Hgood Hitems Hdated.
  pose proof (getFeed_good_fetch e (url feed) name w r Hgood) as Hget.
  destruct Hgood as (bozo' & es' & _ & -> & _ & _).
  simpl in Hitems. subst es'.
  set (old := FeedParserDict bozo true es) in *.
  set (new := FeedParserDict bozo' true es) in *.
  assert (Hsame : getHeadlines old = getHeadlines new).
  { rewrite !getHeadlines_filter. reflexivity. }
  set (hs := getHeadlines new) in *.
  set (keys := list_to_set (map canonize hs) : gset headline_key).
  assert (Hseen : forall (k : nat) (h : headline),
            hs !! k = Some h ->
            seen_at (Some old) new keys (0 + k) h = Returns true).
  { intros k h Hk. cbn [Nat.add].
    assert (Hlt : (k < length hs)%nat) by (eapply lookup_lt_Some, Hk).
    pose proof (getHeadlines_length new) as Hlen. fold hs in Hlen.
    simpl in Hlen.
    destruct (lookup_lt_is_Some_2 es k) as [d Hd]; [lia|].
    unfold old, new.
    rewrite (seen_at_same_entry bozo bozo' true true es keys k h d Hd).
    destruct (decide _) as [_|Hnot];
      [|exfalso; apply Hnot; exact (headline_key_known hs k h Hk)].
    rewrite Forall_lookup in Hdated.
    destruct (Hdated k d) as [t ->]; [|reflexivity].
    rewrite lookup_take_lt by exact Hlt. exact Hd. }
  unfold feed_refresh, bind, get_world. rewrite Hold, Hsame.
  fold hs.
  destruct (negb _ && _); rewrite Hget; [simpl; auto|].
  fold hs. destruct (failure_title hs); [simpl; auto|].
  unfold lift. fold keys.
  destruct (mark_seen_total (Some old) new keys hs 0 (map Some hs))
    as [out Hout].
  { intros k h Hk. exists true. apply Hseen, Hk. }
  rewrite Hout.
  assert (Hnone : Forall (fun h => h = None) out).
  { destruct (mark_seen_invariant (Some old) new keys hs 0 (map Some hs) out)
      as [_ Hmarks]; [|exact Hout|].
    { intros k h Hk. simpl. rewrite list_lookup_fmap, Hk. reflexivity. }
    pose proof (mark_seen_length _ _ _ _ _ _ _ Hout) as Hlen.
    rewrite length_map in Hlen.
    apply Forall_lookup. intros k o Ho.
    assert (Hlt : (k < length hs)%nat)
      by (rewrite <- Hlen; eapply lookup_lt_Some, Ho).
    destruct (lookup_lt_is_Some_2 hs k Hlt) as [h Hk].
    destruct (Hmarks k h Hk) as (seen & Hs & Hout_k).
    rewrite (Hseen k h Hk) in Hs. injection Hs as <-.
    simpl in Hout_k. rewrite Ho in Hout_k. congruence. }
  destruct out as [|o out']; [simpl; auto|].
  rewrite (announce_nothing config e feed name new (o :: out') Hnone).
  simpl. auto.
Qed.

Lemma feed_refresh_unchanged_feed_witness :
  let e := Sample.outside (parse_returns None true [Sample.old_item])
                          Sample.short in
  fst (feed_refresh (Sample.config false None) e Sample.feed "A"
         Sample.cached_world) = Returns tt
  /\ msg_queue (snd (feed_refresh (Sample.config false None) e Sample.feed "A"
                      Sample.cached_world)) = [].
Proof.
  intros e.
  apply (feed_refresh_unchanged_feed (Sample.config false None) e Sample.feed
           "A" Sample.cached_world None (Sample.parsed [Sample.old_item])
           [Sample.old_item]).
  - reflexivity.
  - exists None, [Sample.old_item]. repeat split; discriminate.
  - reflexivity.
  - repeat constructor. eexists. reflexivity.
Defined.

(** X12: polling again a feed that did not change raises [TypeError], and
    queues nothing, when one of the entries the first loop reads carries no
    date (neither key present, or the value [None]): [None >= None] is not
    defined. *)
Theorem feed_refresh_undated_entry_raises (config : Config) (e : env)
    (feed : Feed) (name : string) (w : world) (bozo : option exception)
    (r : results) (es : list entry) (k : nat) (d : entry) :
  cachedFeeds w !! name = Some (FeedParserDict bozo true es) ->
  good_fetch (feedparser_parse e (url feed)) r ->
  getitem_items r = es ->
  failure_title (getHeadlines r) = None ->
  (k < length (getHeadlines r))%nat ->
  es !! k = Some d ->
  entry_time d = None ->
  fst (feed_refresh config e feed name w) = Raises TypeError
  /\ msg_queue (snd (feed_refresh config e feed name w)) = msg_queue w.
Proof.
  intros Hold Hgood Hitems Hguard Hk Hd Hundated.
  pose proof (getFeed_good_fetch e (url feed) name w r Hgood) as Hget.
  destruct Hgood as (bozo' & es' & _ & -> & _ & _).
  simpl in Hitems. subst es'.
  set (old := FeedParserDict bozo true es) in *.
  set (new := FeedParserDict bozo' true es) in *.
  assert (Hsame : getHeadlines old = getHeadlines new).
  { rewrite !getHeadlines_filter. reflexivity. }
  set (hs := getHeadlines new) in *.
  set (keys := list_to_set (map canonize hs) : gset headline_key).
  destruct (lookup_lt_is_Some_2 hs k Hk) as [h Hh].
  assert (Hraise : seen_at (Some old) new keys (0 + k) h = Raises TypeError).
  { cbn [Nat.add]. unfold old, new.
    rewrite (seen_at_same_entry bozo bozo' true true es keys k h d Hd).
    destruct (decide _) as [_|Hnot];
      [|exfalso; apply Hnot; exact (headline_key_known hs k h Hh)].
    rewrite Hundated. reflexivity. }
  destruct (mark_seen_raises (Some old) new keys hs 0 (map Some hs) k h
              TypeError Hh Hraise) as [x Hx].
  assert (Hx' : x = TypeError).
  { destruct (mark_seen_raises_first _ _ _ _ _ _ _ Hx) as (j & h' & Hj & Hr).
    cbn [Nat.add] in Hr.
    assert (Hlt : (j < length hs)%nat) by (eapply lookup_lt_Some, Hj).
    pose proof (getHeadlines_length new) as Hlen. fold hs in Hlen.
    simpl in Hlen.
    destruct (lookup_lt_is_Some_2 es j) as [d' Hd']; [lia|].
    unfold old, new in Hr.
    rewrite (seen_at_same_entry bozo bozo' true true es keys j h' d' Hd') in Hr.
    destruct (decide _); [|discriminate].
    destruct (entry_time d'); [discriminate|]. congruence. }
  subst x.
  assert (Hcond : match hs with [] => true | _ :: _ => false end = false)
    by (destruct hs; [simpl in Hk; lia | reflexivity]).
  unfold feed_refresh, bind, get_world. rewrite Hold, Hsame. fold hs.
  rewrite Hcond, andb_false_r. cbv beta iota. rewrite Hget. fold hs.
  rewrite Hguard. unfold lift. fold keys. rewrite Hx. simpl. auto.
Qed.

Lemma feed_refresh_undated_entry_raises_witness :
  let undated := {| title := Some "Old Title"; link := Some "http://x/1";
                    updated_parsed := None; published_parsed := None |} in
  let w := {| cachedFeeds := {[ "A" := Sample.parsed [undated] ]};
              lastRequest := ∅; msg_queue := []; stdout := [] |} in
  let e := Sample.outside (parse_returns None true [undated]) Sample.short in
  fst (feed_refresh (Sample.config false None) e Sample.feed "A" w)
  = Raises TypeError
  /\ msg_queue (snd (feed_refresh (Sample.config false None) e Sample.feed
                       "A" w)) = [].
Proof.
  intros undated w e.
  apply (feed_refresh_undated_entry_raises (Sample.config false None) e
           Sample.feed "A" w None (Sample.parsed [undated]) [undated]
           0%nat undated).
  - reflexivity.
  - exists None, [undated]. repeat split; discriminate.
  - reflexivity.
  - reflexivity.
  - simpl. lia.
  - reflexivity.
  - reflexivity.
Defined.

(** ** What a tick stores *)

Lemma keeps_bind {A B : Type} (m : M A) (f : A -> M B) :
  keeps_caches m -> (forall a, keeps_caches (f a)) -> keeps_caches (bind m f).
Proof.
  intros Hm Hf w. unfold bind.
  destruct (Hm w) as [Hc Hl].
  destruct (m w) as [[a|x] w1]; simpl in Hc, Hl.
  - destruct (Hf a w1) as [Hc' Hl']. rewrite Hc', Hl'. auto.
  - simpl. auto.
Qed.

Lemma keeps_lift {A : Type} (r : result A) : keeps_caches (lift r).
Proof. intros w. simpl. auto. Qed.

Lemma keeps_ret {A : Type} (a : A) : keeps_caches (ret a).
Proof. intros w. simpl. auto. Qed.

Lemma keeps_print (line : string) : keeps_caches (print line).
Proof. intros w. simpl. auto. Qed.

Lemma keeps_shorten_url (config : Config) (e : env) (long_url : string) :
  keeps_caches (shorten_url config e long_url).
Proof.
  intros w. unfold shorten_url.
  destruct (service_url config); [|simpl; auto].
  destruct (requests_get e _ _) as [err | text]; [|simpl; auto].
  destruct (caught_by_shorten_url _); [|simpl; auto].
  destruct (error_code err); [|simpl; auto].
  destruct (error_msg err); simpl; auto.
Qed.

Lemma keeps_queue_send_all (text : string) (chans : list string) :
  keeps_caches (queue_send_all text chans).
Proof.
  induction chans as [|chan rest IH]; simpl.
  - apply keeps_ret.
  - apply keeps_bind; [intros w; simpl; auto | intros _; exact IH].
Qed.

Lemma keeps_on_rss_entry (config : Config) (chan text : string) :
  keeps_caches (on_rss_entry config chan text).
Proof.
  unfold on_rss_entry. destruct (Str.truthy chan).
  - intros w. simpl. auto.
  - apply keeps_queue_send_all.
Qed.

Lemma keeps_announce (config : Config) (e : env) (feed : Feed)
    (name : string) (newresults : results)
    (newheadlines : list (option headline)) :
  forall i : nat,
    keeps_caches (announce config e feed name newresults i newheadlines).
Proof.
  induction newheadlines as [|h rest IH]; intros i; simpl.
  - apply keeps_ret.
  - destruct h as [[title l]|]; [|apply IH].
    apply keeps_bind; [|intros _; apply IH].
    destruct (match l with Some s => Str.truthy s | None => false end);
      [|apply keeps_ret].
    unfold announce_one.
    apply keeps_bind; [apply keeps_lift | intros new_entries].
    apply keeps_bind; [apply keeps_lift | intros entry_new].
    apply keeps_bind; [apply keeps_shorten_url | intros link].
    apply keeps_bind; [apply keeps_lift | intros feedName].
    apply keeps_bind; [apply keeps_lift | intros feedTitle].
    apply keeps_on_rss_entry.
Qed.

Lemma feed_refresh_caches (config : Config) (e : env)
    (feed : Feed) (name : string) (w : world) :
  cachedFeeds (snd (feed_refresh config e feed name w))
  = cachedFeeds (snd (getFeed e (url feed) name w))
  /\ lastRequest (snd (feed_refresh config e feed name w))
     = lastRequest (snd (getFeed e (url feed) name w)).
Proof.
  unfold feed_refresh, bind, get_world.
  destruct (negb _ && _); cbv beta;
    destruct (getFeed e (url feed) name w) as [[r|x] w1]; simpl; auto.
  destruct (failure_title (getHeadlines r)); [simpl; auto|].
  unfold lift.
  match goal with
  | |- context [mark_seen ?o ?n ?keys ?i ?todo ?hs] =>
      destruct (mark_seen o n keys i todo hs) as [out|x]
  end; [|simpl; auto].
  destruct out as [|h out']; [simpl; auto|].
  apply (keeps_announce config e feed name r (h :: out') 0 w1).
Qed.

(** X13: whatever a tick does (return, announce, or raise on the way), the
    cache and the last-request times it leaves are those [getFeed] left:
    the change detector and the announcements store nothing. *)
Theorem feed_refresh_stores_what_getFeed_stores (config : Config) (e : env)
    (feed : Feed) (name : string) (w : world) :
  cachedFeeds (snd (feed_refresh config e feed name w))
  = cachedFeeds (snd (getFeed e (url feed) name w))
  /\ lastRequest (snd (feed_refresh config e feed name w))
     = lastRequest (snd (getFeed e (url feed) name w)).
Proof. exact (feed_refresh_caches config e feed name w). Qed.

Lemma feed_refresh_other_feeds (config : Config) (e : env) (feed : Feed)
    (name other : string) (w : world) :
  other <> name ->
  cachedFeeds (snd (feed_refresh config e feed name w)) !! other
  = cachedFeeds w !! other
  /\ lastRequest (snd (feed_refresh config e feed name w)) !! other
     = lastRequest w !! other.
Proof.
  intros Hother.
  destruct (feed_refresh_caches config e feed name w) as [-> ->].
  destruct (getFeed_other_feeds e (url feed) name other w Hother)
    as (Hc & Hl & _).
  auto.
Qed.

(** ** The shared timer *)

(** X14: a round of the shared timer only ever appends to the queue, and
    leaves untouched what is stored for every feed that is not in its
    batch, whether the round completes or is cut short by an exception. *)
Theorem feed_refresh_oneTimer_frame (config : Config) (e : env)
    (batch : list (string * Feed)) (other : string) :
  other ∉ map fst batch ->
  forall w : world,
    (exists msgs : list (string * string),
        msg_queue (snd (feed_refresh_oneTimer config e batch w))
        = msg_queue w ++ msgs)
    /\ cachedFeeds (snd (feed_refresh_oneTimer config e batch w)) !! other
       = cachedFeeds w !! other
    /\ lastRequest (snd (feed_refresh_oneTimer config e batch w)) !! other
       = lastRequest w !! other.
Proof.
  induction batch as [|[name feed] rest IH]; intros Hother w; simpl.
  - split; [exists []; rewrite app_nil_r; reflexivity | auto].
  - simpl in Hother. apply not_elem_of_cons in Hother as [Hname Hrest].
    destruct (feed_refresh_queue config e feed name w) as (msgs & Hq & _).
    destruct (feed_refresh_other_feeds config e feed name other w Hname)
      as [Hc Hl].
    unfold bind.
    destruct (feed_refresh config e feed name w) as [[u|x] w1];
      simpl in Hq, Hc, Hl |- *.
    + destruct (IH Hrest w1) as ((msgs' & Hq') & Hc' & Hl').
      rewrite Hq', Hq, Hc', Hl', <- app_assoc. eauto.
    + eauto.
Qed.

Lemma feed_refresh_oneTimer_frame_witness :
  let e := Sample.outside
             (parse_returns None true [Sample.new_item; Sample.old_item])
             Sample.short in
  cachedFeeds (snd (feed_refresh_oneTimer (Sample.config false None) e
                      [("B", Sample.feed); ("C", Sample.feed)]
                      Sample.cached_world)) !! "A"
  = Some (Sample.parsed [Sample.old_item]).
Proof.
  intros e.
  destruct (feed_refresh_oneTimer_frame (Sample.config false None) e
              [("B", Sample.feed); ("C", Sample.feed)] "A")
    with (w := Sample.cached_world) as (_ & Hc & _).
  - intros H. apply list_elem_of_In in H. simpl in H.
    destruct H as [H|[H|[]]]; discriminate H.
  - exact Hc.
Defined.

(** ** on_rss_entry *)

Lemma queue_send_all_appends (text : string) (chans : list string) :
  forall w : world,
    queue_send_all text chans w
    = (Returns tt,
       {| cachedFeeds := cachedFeeds w; lastRequest := lastRequest w;
          msg_queue := msg_queue w
                       ++ map (fun chan => (Str.strip text, chan)) chans;
          stdout := stdout w |}).
Proof.
  induction chans as [|chan rest IH]; intros w; simpl.
  - unfold ret. rewrite app_nil_r. destruct w; reflexivity.
  - unfold bind, queue_send. rewrite IH. simpl.
    rewrite <- app_assoc. reflexivity.
Qed.

(** X15: [on_rss_entry] with a channel queues the stripped text once, for
    that channel.  Without one it queues the stripped text once for each
    distinct channel a feed of the configuration names, enabled or not, and
    for nothing else. *)
Theorem on_rss_entry_targets (config : Config) (chan text : string)
    (w : world) :
  fst (on_rss_entry config chan text w) = Returns tt
  /\ (chan <> "" ->
      msg_queue (snd (on_rss_entry config chan text w))
      = msg_queue w ++ [(Str.strip text, chan)])
  /\ (chan = "" ->
      exists targets : list string,
        msg_queue (snd (on_rss_entry config chan text w))
        = msg_queue w ++ map (fun c => (Str.strip text, c)) targets
        /\ NoDup targets
        /\ forall c : string,
             c ∈ targets
             <-> exists (name : string) (feed : Feed),
                   (name, feed) ∈ feeds config /\ channel feed = c).
Proof.
  unfold on_rss_entry.
  destruct chan as [|a chan']; simpl.
  - rewrite queue_send_all_appends. simpl.
    split; [reflexivity|]. split; [congruence|].
    intros _. exists (all_channels config).
    split; [reflexivity|]. unfold all_channels.
    split; [apply NoDup_elements|].
    intros c.
    rewrite elem_of_elements, elem_of_list_to_set.
    rewrite (list_elem_of_fmap (fun nf : string * Feed => channel (snd nf))).
    split.
    + intros ([name feed] & -> & Hin). eauto.
    + intros (name & feed & Hin & <-). exists (name, feed). auto.
  - split; [reflexivity|]. split; [reflexivity|]. discriminate.
Qed.

(** ** init_periodic_feedRefresh *)

Lemma schedule_feeds (l : list (string * Feed)) :
  forall st : scheduling,
    started (fold_left schedule_feed l st)
    = started st ++ omap own_executor l
    /\ feeds_oneTimer (fold_left schedule_feed l st)
       = feeds_oneTimer st ++ List.filter shares_timer l
    /\ ((forall k v, feed_thread st !! k = Some v -> v = None) ->
        forall k v,
          feed_thread (fold_left schedule_feed l st) !! k = Some v ->
          v = None).
Proof.
  induction l as [|[name feed] l IH]; intros st.
  - simpl. rewrite !app_nil_r. auto.
  - change (fold_left schedule_feed ((name, feed) :: l) st)
      with (fold_left schedule_feed l (schedule_feed st (name, feed))).
    destruct (IH (schedule_feed st (name, feed))) as (Hs & Ho & Ht).
    rewrite Hs, Ho. clear Hs Ho.
    unfold schedule_feed, own_executor, shares_timer in *. simpl in *.
    destruct (enabled feed); simpl in *.
    + destruct (refresh_delay feed) as [delay|]; simpl in *.
      * rewrite <- app_assoc. split; [reflexivity|]. split; [reflexivity|].
        intros Hnone. apply Ht. intros k v.
        destruct (decide (name = k)) as [->|Hne].
        -- rewrite lookup_insert_eq. congruence.
        -- rewrite lookup_insert_ne by exact Hne. apply Hnone.
      * rewrite <- app_assoc. auto.
    + auto.
Qed.

(** X16: [init_periodic_feedRefresh] starts, in the order of the
    configuration, one executor for each enabled feed that has a refresh
    delay, with that delay as interval; then, if some enabled feed has none,
    one executor more, with the default delay, for all those feeds in order.
    A disabled feed is in no executor.  Every value it puts in
    [feed_thread] is [None]: no started executor can be reached through
    it. *)
Theorem init_periodic_feedRefresh_covers (config : Config) :
  started (init_periodic_feedRefresh config)
  = omap own_executor (feeds config)
    ++ match List.filter shares_timer (feeds config) with
       | [] => []
       | batch =>
           [ {| _interval := default_refresh_delay (network config);
                _func := call_feed_refresh_oneTimer batch |} ]
       end
  /\ forall (k : string) (v : option executor),
       feed_thread (init_periodic_feedRefresh config) !! k = Some v ->
       v = None.
Proof.
  unfold init_periodic_feedRefresh.
  destruct (schedule_feeds (feeds config)
              {| feed_thread := ∅; started := []; feeds_oneTimer := [] |})
    as (Hs & Ho & Ht).
  simpl in Hs, Ho.
  assert (Hnone : forall k v,
            feed_thread (fold_left schedule_feed (feeds config)
                           {| feed_thread := ∅; started := [];
                              feeds_oneTimer := [] |}) !! k = Some v ->
            v = None).
  { apply Ht. intros k v H. simpl in H. rewrite lookup_empty in H.
    discriminate. }
  rewrite Ho.
  destruct (List.filter shares_timer (feeds config)) as [|item batch] eqn:Hb;
    simpl.
  - rewrite Hs, app_nil_r. auto.
  - rewrite Hs. split; [reflexivity|].
    intros k v. destruct (decide ("__oneTimer__" = k)) as [<-|Hne].
    + rewrite lookup_insert_eq. congruence.
    + rewrite lookup_insert_ne by exact Hne. apply Hnone.
Qed.

(** ** PeriodicExecutor: firing and stopping *)

(** X17: as long as nobody asks it to stop and the function returns, the
    executor goes on.  The two conditions are asked along the run only: of
    the iterations and states the run itself reaches, described by an
    invariant [Inv] that holds at the start and that every returning call
    hands on.  Given [fuel] iterations the executor then starts them all,
    calling the function once in each, and is still in its loop, in a state
    of the invariant. *)
Theorem run_keeps_firing {State : Type}
    (_func : nat -> State -> result unit * State) (_finished : nat -> bool)
    (Inv : nat -> State -> Prop) :
  (forall (k : nat) (s : State),
      Inv k s ->
      _finished k = false
      /\ exists s', _func k s = (Returns tt, s') /\ Inv (S k) s') ->
  forall (fuel k : nat) (s : State),
    Inv k s ->
    exists s',
      PeriodicExecutor.run_from _func _finished fuel k s
      = (PeriodicExecutor.Waiting, (k + fuel)%nat, s')
      /\ Inv (k + fuel)%nat s'.
Proof.
  intros Hstep fuel.
  induction fuel as [|fuel IH]; intros k s Hinv; simpl.
  - rewrite Nat.add_0_r. exists s. split; [reflexivity | exact Hinv].
  - destruct (Hstep k s Hinv) as (-> & s1 & -> & Hinv1).
    destruct (IH (S k) s1 Hinv1) as (s' & -> & Hinv').
    exists s'. replace (k + S fuel)%nat with (S k + fuel)%nat by lia.
    split; [reflexivity | exact Hinv'].
Qed.

Lemma run_keeps_firing_witness :
  let e := Sample.outside
             (parse_returns None true [Sample.new_item; Sample.old_item])
             Sample.short in
  let tick := fun _ : nat =>
                feed_refresh (Sample.config false None) e Sample.feed "A" in
  let first := snd (tick 0%nat Sample.empty_world) in
  exists w,
    PeriodicExecutor.run_from tick (fun _ => false) 7 0 Sample.empty_world
    = (PeriodicExecutor.Waiting, (0 + 7)%nat, w)
    /\ (w = Sample.empty_world \/ w = first).
Proof.
  intros e tick first.
  apply (run_keeps_firing tick (fun _ => false)
           (fun _ w => w = Sample.empty_world \/ w = first)).
  - intros k s Hs. split; [reflexivity|].
    exists first. split; [|right; reflexivity].
    destruct Hs as [-> | ->]; vm_compute; reflexivity.
  - left; reflexivity.
Defined.

(** X18: once [shutdown] has set the event, the iteration that reads it
    returns from [run] without calling the function, and no later iteration
    starts: the number of calls stays what it was. *)
Theorem run_returns_after_shutdown {State : Type}
    (_func : nat -> State -> result unit * State) (_finished : nat -> bool)
    (n k k' : nat) (s s' : State) :
  PeriodicExecutor.run_from _func _finished n k s
  = (PeriodicExecutor.Waiting, k', s') ->
  _finished k' = true ->
  forall fuel : nat,
    PeriodicExecutor.run_from _func _finished (n + S fuel) k s
    = (PeriodicExecutor.Returned, k', s').
Proof.
  intros Hgood Hstop fuel.
  rewrite (run_from_waiting _func _finished n k k' s s' Hgood).
  simpl. rewrite Hstop. reflexivity.
Qed.

Lemma run_returns_after_shutdown_witness :
  let tick := fun (_ : nat) (calls : nat) => (Returns tt, S calls) in
  PeriodicExecutor.run_from tick (fun k => (3 <=? k)%nat) (3 + 5) 0 0%nat
  = (PeriodicExecutor.Returned, 3%nat, 3%nat).
Proof.
  intros tick.
  apply (run_returns_after_shutdown tick (fun k => (3 <=? k)%nat)
           3 0 3 0%nat 3%nat); reflexivity.
Defined.

(** ** ReconnectStrategy: coalescing, early attempts, the check *)

(** X19: two calls of [run] in a row start one timer only: the second finds
    the check scheduled and changes nothing. *)
Theorem run_coalesces (random1 random2 : Q) (self : ReconnectStrategy.t) :
  ReconnectStrategy.run random2 (fst (ReconnectStrategy.run random1 self))
  = (fst (ReconnectStrategy.run random1 self), None)
  /\ ReconnectStrategy._check_scheduled
       (fst (ReconnectStrategy.run random1 self)) = true.
Proof.
  unfold ReconnectStrategy.run.
  destruct (ReconnectStrategy._check_scheduled self) eqn:Hs; simpl.
  - rewrite Hs. auto.
  - auto.
Qed.

(** X20: while the exponential bound [2**n - 1] has not passed
    [min_interval], the jitter plays no part: the interval is
    [min_interval] exactly. *)
Theorem interval_is_min_on_early_attempts (self : ReconnectStrategy.t)
    (n : Z) (random : Q) :
  0 <= ReconnectStrategy.min_interval self
       <= ReconnectStrategy.max_interval self ->
  1 <= n ->
  2 ^ n - 1 <= ReconnectStrategy.min_interval self ->
  (0 <= random)%Q /\ (random < 1)%Q ->
  ReconnectStrategy.interval self n random
  = ReconnectStrategy.min_interval self.
Proof.
  intros Hminmax Hn Hearly [Hlo Hhi].
  assert (H2 : 2 ^ 1 <= 2 ^ n) by (apply Z.pow_le_mono_r; lia).
  change (2 ^ 1) with 2 in H2.
  unfold ReconnectStrategy.interval.
  pose proof (int_jitter_bounds
                (Z.min (2 ^ n - 1) (ReconnectStrategy.max_interval self))
                random ltac:(lia) Hlo Hhi) as Hj.
  lia.
Qed.

Lemma interval_is_min_on_early_attempts_witness :
  ReconnectStrategy.interval Sample.strategy 3 (9 # 10) = 10.
Proof.
  apply (interval_is_min_on_early_attempts Sample.strategy 3 (9 # 10)).
  - simpl. lia.
  - lia.
  - simpl. lia.
  - split; vm_compute; [discriminate | reflexivity].
Defined.

(** X21: what the timer's [check] does.  With the connection up it only
    clears the pending flag: no timer, no reconnection, and the attempt
    count is not reset.  With the connection down it schedules the next
    round first (attempt count one higher, timer started) and then calls
    [_connect], without disconnecting. *)
Theorem check_cycle (a : Bot.answers) (self : Bot.t) :
  (Bot.connected self = true ->
   Bot.check a self
   = (Returns tt,
      {| Bot.connected := true; Bot.channels := Bot.channels self;
         Bot.recon :=
           {| ReconnectStrategy.min_interval :=
                ReconnectStrategy.min_interval (Bot.recon self);
              ReconnectStrategy.max_interval :=
                ReconnectStrategy.max_interval (Bot.recon self);
              ReconnectStrategy._check_scheduled := false;
              ReconnectStrategy.attempt_count :=
                ReconnectStrategy.attempt_count (Bot.recon self) |};
         Bot.trace := Bot.trace self |}))
  /\ (Bot.connected self = false ->
      ReconnectStrategy._check_scheduled (Bot.recon (snd (Bot.check a self)))
      = true
      /\ ReconnectStrategy.attempt_count (Bot.recon (snd (Bot.check a self)))
         = ReconnectStrategy.attempt_count (Bot.recon self) + 1
      /\ Bot.trace (snd (Bot.check a self))
         = Bot.trace self
           ++ [Bot.StartTimer
                 (ReconnectStrategy.interval (Bot.recon self)
                    (ReconnectStrategy.attempt_count (Bot.recon self))
                    (Bot.random_random a));
               Bot.Connect]
      /\ Bot.channels (snd (Bot.check a self)) = Bot.channels self).
Proof.
  destruct self as [c ch r tr].
  split; intros Hc; simpl in Hc; subst c.
  - reflexivity.
  - unfold Bot.check, Bot.jump_server, Bot.recon_run, Bot.act,
      ReconnectStrategy.run.
    simpl.
    destruct (Bot._connect a); simpl; rewrite <- app_assoc; auto.
Qed.

(** ** The queue consumer while connected *)

(** X22: while the connection is up, the consumer sends every queued message
    in the order of the queue, sleeping [delay] after each; it drops none,
    reconnects never, and ends waiting on the empty queue. *)
Theorem consumer_sends_in_order (a : nat -> Bot.answers) (delay : Q)
    (queue : list (string * string)) :
  forall (k : nat) (self : Bot.t),
    Bot.connected self = true ->
    Bot.msq_queue_tasks a delay k queue self
    = (Returns tt, [],
       {| Bot.connected := true; Bot.channels := Bot.channels self;
          Bot.recon := Bot.recon self;
          Bot.trace :=
            Bot.trace self
            ++ concat (map (fun item : string * string =>
                              [Bot.Privmsg (snd item) (fst item);
                               Bot.Sleep delay]) queue) |}).
Proof.
  induction queue as [|[msg target] rest IH]; intros k self Hc; simpl.
  - rewrite app_nil_r. destruct self; simpl in Hc; subst. reflexivity.
  - unfold Bot.privmsg, Bot.act. rewrite Hc. simpl.
    rewrite IH by reflexivity. simpl.
    rewrite <- !app_assoc. reflexivity.
Qed.

Lemma consumer_sends_in_order_witness :
  Bot.trace
    (snd (Bot.msq_queue_tasks (fun _ => Sample.answers) (5 # 10)%Q 0
            [("first", "#news"); ("second", "#other")]
            {| Bot.connected := true; Bot.channels := ["#news"];
               Bot.recon := Sample.strategy; Bot.trace := [] |}))
  = [Bot.Privmsg "#news" "first"; Bot.Sleep (5 # 10)%Q;
     Bot.Privmsg "#other" "second"; Bot.Sleep (5 # 10)%Q].
Proof.
  rewrite (consumer_sends_in_order (fun _ => Sample.answers) (5 # 10)%Q
             [("first", "#news"); ("second", "#other")] 0).
  - reflexivity.
  - reflexivity.
Defined.

(** ** The formatting helpers *)

Lemma append_cons (a : ascii) (s t : string) :
  String a s +:+ t = String a (s +:+ t).
Proof. reflexivity. Qed.

Lemma append_empty_l (t : string) : "" +:+ t = t.
Proof. reflexivity. Qed.

Lemma append_empty_r (s : string) : s +:+ "" = s.
Proof.
  induction s as [|a s IH]; [reflexivity|].
  rewrite append_cons, IH. reflexivity.
Qed.

Lemma remove_absent (c : ascii) (s : string) :
  contains c s = false -> Formatting.remove c s = s.
Proof.
  induction s as [|a s IH]; simpl; [reflexivity|].
  destruct (decide (a = c)); [discriminate|].
  intros H. rewrite (IH H). reflexivity.
Qed.

Lemma contains_remove (c d : ascii) (s : string) :
  contains c (Formatting.remove d s)
  = if decide (c = d) then false else contains c s.
Proof.
  induction s as [|a s IH]; simpl.
  - destruct (decide (c = d)); reflexivity.
  - destruct (decide (a = d)) as [->|Had].
    + rewrite IH. destruct (decide (c = d)) as [->|Hcd]; [reflexivity|].
      destruct (decide (d = c)); [congruence | reflexivity].
    + simpl. rewrite IH.
      destruct (decide (a = c)) as [->|Hac];
        destruct (decide (c = d)); congruence.
Qed.

Lemma contains_stripColor_from (c : ascii) (s : string) :
  forall skip : nat,
    contains c (Formatting.stripColor_from skip s)
    = true -> c <> Formatting.COLOR /\ contains c s = true.
Proof.
  induction s as [|a s IH]; intros skip; simpl; [discriminate|].
  destruct skip as [|n].
  - destruct (decide (a = Formatting.COLOR)) as [->|Ha].
    + intros H. destruct (IH _ H) as [Hc Hs]. split; [exact Hc|].
      destruct (decide (Formatting.COLOR = c)); [reflexivity | exact Hs].
    + simpl. destruct (decide (a = c)) as [->|Hac].
      * intros _. split; [exact Ha | reflexivity].
      * apply IH.
  - intros H. destruct (IH _ H) as [Hc Hs]. split; [exact Hc|].
    destruct (decide (a = c)); [reflexivity | exact Hs].
Qed.

Lemma stripColor_from_plain_app (s t : string) :
  contains Formatting.COLOR s = false ->
  Formatting.stripColor_from 0 (s +:+ t)
  = s +:+ Formatting.stripColor_from 0 t.
Proof.
  induction s as [|a s IH]; [reflexivity|].
  rewrite !append_cons. simpl.
  destruct (decide (a = Formatting.COLOR)); [discriminate|].
  intros H. rewrite (IH H). reflexivity.
Qed.

Lemma stripFormatting_plain (s : string) :
  plain s -> Formatting.stripFormatting s = s.
Proof.
  intros (Hcolor & Hbold & Hswap & Hunder & Hend).
  unfold Formatting.stripFormatting, Formatting.stripColor,
    Formatting.stripBold, Formatting.stripReverse, Formatting.stripUnderline.
  pose proof (stripColor_from_plain_app s "" Hcolor) as H.
  rewrite append_empty_r in H. simpl in H. rewrite append_empty_r in H.
  rewrite H, (remove_absent _ s Hbold), (remove_absent _ s Hswap),
    !(remove_absent _ s Hunder), !(remove_absent _ s Hend).
  reflexivity.
Qed.

Lemma stripFormatting_is_plain (s : string) :
  plain (Formatting.stripFormatting s).
Proof.
  unfold Formatting.stripFormatting, Formatting.stripColor,
    Formatting.stripBold, Formatting.stripReverse, Formatting.stripUnderline,
    plain.
  rewrite !contains_remove.
  assert (Hcolor : contains Formatting.COLOR (Formatting.stripColor_from 0 s)
                   = false).
  { destruct (contains Formatting.COLOR (Formatting.stripColor_from 0 s))
      eqn:Hc; [|reflexivity].
    apply contains_stripColor_from in Hc. destruct Hc as [Hc _]. congruence. }
  revert Hcolor.
  unfold Formatting.COLOR, Formatting.BOLD, Formatting.SWAP,
    Formatting.UNDERLINE, Formatting.END.
  intros Hcolor.
  repeat match goal with
         | |- context [decide (?x = ?y)] =>
             destruct (decide (x = y)); try congruence
         end.
  auto.
Qed.

(** X23: [stripFormatting] leaves none of the five formatting characters
    (colour, bold, reverse, underline, reset) in its result, leaves a string
    that has none as it is, and so does nothing more when applied twice. *)
Theorem stripFormatting_removes_all (s : string) :
  plain (Formatting.stripFormatting s)
  /\ (plain s -> Formatting.stripFormatting s = s)
  /\ Formatting.stripFormatting (Formatting.stripFormatting s)
     = Formatting.stripFormatting s.
Proof.
  split; [apply stripFormatting_is_plain|].
  split; [apply stripFormatting_plain|].
  apply stripFormatting_plain, stripFormatting_is_plain.
Qed.

Lemma mircColors_code (name code : string) :
  mircColors name = Some code -> color_code code.
Proof.
  unfold mircColors, color_code.
  repeat match goal with
         | |- context [decide (?x = ?y)] => destruct (decide (x = y))
         end;
    intros H; try discriminate H; injection H as <-;
    first [ left; eexists; split; reflexivity
          | right; do 2 eexists; repeat split; reflexivity ].
Qed.

Lemma zfill2_code (code : string) :
  color_code code ->
  exists a b, Str.zfill2 code = String a (String b "")
              /\ Formatting.is_digit a = true
              /\ Formatting.is_digit b = true.
Proof.
  intros [(a & -> & Ha) | (a & b & -> & Ha & Hb)]; simpl.
  - exists "0"%char, a. auto.
  - exists a, b. auto.
Qed.

Lemma digit_not_comma (a : ascii) :
  Formatting.is_digit a = true -> a <> ","%char.
Proof. intros H ->. discriminate H. Qed.

Lemma comma_digits_before_color (s t : string) :
  Formatting.comma_digits s = 0%nat ->
  Formatting.comma_digits (s +:+ String Formatting.COLOR t) = 0%nat.
Proof.
  destruct s as [|x r]; [reflexivity|].
  rewrite append_cons. simpl.
  destruct (decide (x = ","%char)); [|reflexivity].
  destruct r as [|y r']; [reflexivity|].
  rewrite append_cons. simpl.
  destruct (Formatting.is_digit y); [|reflexivity].
  destruct r' as [|z r'']; [discriminate|].
  destruct (Formatting.is_digit z); discriminate.
Qed.

Lemma color_code_length_digits (a b : ascii) (rest : string) :
  Formatting.is_digit a = true ->
  Formatting.is_digit b = true ->
  Formatting.comma_digits rest = 0%nat ->
  Formatting.color_code_length (String a (String b rest)) = 2%nat.
Proof.
  intros Ha Hb Hrest. unfold Formatting.color_code_length. simpl.
  rewrite Ha, Hb, Hrest.
  destruct (decide (b = ","%char)) as [Hcomma|_];
    [exfalso; exact (digit_not_comma b Hb Hcomma) | reflexivity].
Qed.

Lemma color_code_length_pair (fg : string) (c d : ascii) (rest : string) :
  color_code fg ->
  Formatting.is_digit c = true ->
  Formatting.is_digit d = true ->
  Formatting.color_code_length (fg +:+ String "," (String c (String d rest)))
  = (String.length fg + 3)%nat
  /\ Formatting.drop (String.length fg + 3)
       (fg +:+ String "," (String c (String d rest))) = rest.
Proof.
  intros [(a & -> & Ha) | (a & b & -> & Ha & Hb)] Hc Hd;
    unfold Formatting.color_code_length; simpl;
    rewrite ?Ha, ?Hb, ?Hc, ?Hd; simpl; rewrite ?Hc, ?Hd; auto.
Qed.

Lemma stripColor_from_drop (n : nat) :
  forall s : string,
    (n <= String.length s)%nat ->
    Formatting.stripColor_from n s
    = Formatting.stripColor_from 0 (Formatting.drop n s).
Proof.
  induction n as [|n IH]; intros s Hlen.
  - destruct s; reflexivity.
  - destruct s as [|a s]; [simpl in Hlen; lia|].
    simpl. apply IH. simpl in Hlen. lia.
Qed.

Lemma stripColor_closing (s : string) :
  contains Formatting.COLOR s = false ->
  Formatting.stripColor_from 0 (s +:+ String Formatting.COLOR "") = s.
Proof.
  intros H. rewrite (stripColor_from_plain_app _ _ H). simpl.
  apply append_empty_r.
Qed.

Lemma stripColor_from_color (s : string) :
  Formatting.stripColor_from 0 (String Formatting.COLOR s)
  = Formatting.stripColor_from (Formatting.color_code_length s) s.
Proof.
  simpl. destruct (decide (Formatting.COLOR = Formatting.COLOR));
    [reflexivity | congruence].
Qed.

Lemma stripColor_pair (fg : string) (c d : ascii) (s : string) :
  color_code fg ->
  Formatting.is_digit c = true ->
  Formatting.is_digit d = true ->
  contains Formatting.COLOR s = false ->
  Formatting.stripColor_from 0
    (String Formatting.COLOR
       (fg +:+ String "," (String c (String d (s +:+ String Formatting.COLOR "")))))
  = s.
Proof.
  intros Hfg Hc Hd Hno. rewrite stripColor_from_color.
  destruct (color_code_length_pair fg c d (s +:+ String Formatting.COLOR "")
              Hfg Hc Hd) as [-> Hdrop].
  rewrite stripColor_from_drop, Hdrop; [apply stripColor_closing, Hno|].
  destruct Hfg as [(a & -> & _) | (a & b & -> & _)]; simpl; lia.
Qed.

Lemma stripColor_digits (a b : ascii) (s : string) :
  Formatting.is_digit a = true ->
  Formatting.is_digit b = true ->
  Formatting.comma_digits s = 0%nat ->
  contains Formatting.COLOR s = false ->
  Formatting.stripColor_from 0
    (String Formatting.COLOR
       (String a (String b (s +:+ String Formatting.COLOR ""))))
  = s.
Proof.
  intros Ha Hb Hcomma Hno. rewrite stripColor_from_color.
  rewrite (color_code_length_digits a b _ Ha Hb
             (comma_digits_before_color s "" Hcomma)).
  simpl. apply stripColor_closing, Hno.
Qed.

Lemma mircColor_with_foreground (s fg : string) :
  mircColor s fg = Formatting.mircColor s (Some fg) None.
Proof. reflexivity. Qed.

(** X24: colouring a text and stripping the colour again gives the text
    back, for every combination of foreground and background, provided the
    text holds no formatting character and, when only a foreground is
    given, does not begin with a comma followed by a digit (which the
    pattern would take for a background). *)
Theorem stripColor_undoes_mircColor (s : string) (fg bg : option string)
    (t : string) :
  plain s ->
  (bg = None -> Formatting.comma_digits s = 0%nat) ->
  Formatting.mircColor s fg bg = Returns t ->
  Formatting.stripColor t = s /\ Formatting.stripFormatting t = s.
Proof.
  intros Hplain Hcomma Hcolor.
  assert (Hstrip : Formatting.stripColor t = s).
  { destruct Hplain as [Hno _].
    unfold Formatting.mircColor in Hcolor. unfold Formatting.stripColor.
    destruct fg as [fg|], bg as [bg|].
    - destruct (mircColors fg) as [f|] eqn:Hf; [|discriminate].
      destruct (mircColors bg) as [b|] eqn:Hb; [|discriminate].
      injection Hcolor as <-.
      destruct (zfill2_code b (mircColors_code _ _ Hb))
        as (c & d & -> & Hc & Hd).
      apply (stripColor_pair f c d s (mircColors_code _ _ Hf) Hc Hd Hno).
    - destruct (mircColors fg) as [f|] eqn:Hf; [|discriminate].
      injection Hcolor as <-.
      destruct (zfill2_code f (mircColors_code _ _ Hf))
        as (a & b & -> & Ha & Hb).
      apply (stripColor_digits a b s Ha Hb (Hcomma eq_refl) Hno).
    - destruct (mircColors bg) as [b|] eqn:Hb; [|discriminate].
      injection Hcolor as <-.
      destruct (zfill2_code b (mircColors_code _ _ Hb))
        as (c & d & -> & Hc & Hd).
      apply (stripColor_pair "00" c d s); try assumption.
      right. exists "0"%char, "0"%char. auto.
    - injection Hcolor as <-.
      pose proof (stripColor_from_plain_app s "" Hno) as H.
      rewrite append_empty_r in H. simpl in H.
      rewrite append_empty_r in H. exact H. }
  split; [exact Hstrip|].
  unfold Formatting.stripFormatting. rewrite Hstrip.
  destruct Hplain as (_ & Hbold & Hswap & Hunder & Hend).
  unfold Formatting.stripBold, Formatting.stripReverse,
    Formatting.stripUnderline.
  rewrite (remove_absent _ s Hbold), (remove_absent _ s Hswap),
    !(remove_absent _ s Hunder), !(remove_absent _ s Hend).
  reflexivity.
Qed.

Lemma stripColor_undoes_mircColor_witness :
  Formatting.stripColor
    (String "003"%char ("04New Title" +:+ String "003"%char ""))
  = "New Title".
Proof.
  apply (stripColor_undoes_mircColor "New Title" (Some "red") None).
  - repeat split.
  - reflexivity.
  - reflexivity.
Defined.

(** The precondition is a real one: a text that begins with a comma and a
    digit loses them. *)
Example stripColor_eats_comma_digit :
  Formatting.mircColor ",5 items" (Some "red") None
  = Returns (String "003"%char ("04,5 items" +:+ String "003"%char ""))
  /\ Formatting.stripColor
       (String "003"%char ("04,5 items" +:+ String "003"%char ""))
     = " items".
Proof. split; reflexivity. Qed.

(** ** The key of a headline *)

Lemma lower_char_idempotent (c : ascii) :
  Str.lower_char (Str.lower_char c) = Str.lower_char c.
Proof. destruct c as [[] [] [] [] [] [] [] []]; reflexivity. Qed.

Lemma isspace_lower_char (c : ascii) :
  Str.isspace (Str.lower_char c) = Str.isspace c.
Proof. destruct c as [[] [] [] [] [] [] [] []]; reflexivity. Qed.

Lemma lower_idempotent (s : string) : Str.lower (Str.lower s) = Str.lower s.
Proof.
  induction s as [|c s IH]; simpl; [reflexivity|].
  rewrite lower_char_idempotent, IH. reflexivity.
Qed.

Lemma split_lstrip (s : string) : Str.split (Str.lstrip s) = Str.split s.
Proof.
  induction s as [|c s IH]; [reflexivity|].
  simpl. destruct (Str.isspace c) eqn:Hc; [exact IH|].
  simpl. rewrite Hc. reflexivity.
Qed.

Lemma rstrip_head (s r : string) (d : ascii) :
  Str.rstrip s = String d r -> exists s', s = String d s'.
Proof.
  destruct s as [|c s']; simpl; [discriminate|].
  destruct (Str.rstrip s') as [|d' r'].
  - destruct (Str.isspace c); [discriminate|].
    intros H. injection H as <- _. eauto.
  - intros H. injection H as <- _. eauto.
Qed.

Lemma split_cons (c : ascii) (s : string) :
  Str.split (String c s)
  = if Str.isspace c then Str.split s
    else
      match s with
      | EmptyString => [String c EmptyString]
      | String d _ =>
          if Str.isspace d then String c EmptyString :: Str.split s
          else
            match Str.split s with
            | w :: ws => String c w :: ws
            | [] => [String c EmptyString]
            end
      end.
Proof. destruct s; reflexivity. Qed.

Lemma split_rstrip (s : string) : Str.split (Str.rstrip s) = Str.split s.
Proof.
  induction s as [|c s IH]; [reflexivity|].
  cbn [Str.rstrip].
  destruct (Str.rstrip s) as [|d r] eqn:Hr.
  - (* everything after [c] is blank *)
    assert (Hs : Str.split s = []) by (rewrite <- IH; reflexivity).
    rewrite (split_cons c s).
    destruct (Str.isspace c) eqn:Hc; [rewrite Hs; reflexivity|].
    rewrite (split_cons c ""), Hc.
    destruct s as [|d s']; [reflexivity|].
    rewrite Hs. destruct (Str.isspace d); reflexivity.
  - destruct (rstrip_head s r d Hr) as [s' ->].
    rewrite (split_cons c (String d r)), (split_cons c (String d s')), IH.
    reflexivity.
Qed.

Lemma lower_lstrip (s : string) :
  Str.lower (Str.lstrip s) = Str.lstrip (Str.lower s).
Proof.
  induction s as [|c s IH]; [reflexivity|].
  simpl. rewrite isspace_lower_char.
  destruct (Str.isspace c); [exact IH | reflexivity].
Qed.

Lemma lower_rstrip (s : string) :
  Str.lower (Str.rstrip s) = Str.rstrip (Str.lower s).
Proof.
  induction s as [|c s IH]; [reflexivity|].
  simpl. rewrite <- IH, isspace_lower_char.
  destruct (Str.rstrip s); simpl; [destruct (Str.isspace c)|]; reflexivity.
Qed.

(** X25: the key the change detector builds of a headline does not see the
    case of the letters of the title, nor blanks before or after it: the
    lower-cased title and the stripped title have the key of the title. *)
Theorem canonize_ignores_case_and_margins (t : string) (l : option string) :
  canonize (Str.lower t, l) = canonize (t, l)
  /\ canonize (Str.strip t, l) = canonize (t, l).
Proof.
  unfold canonize, Str.strip. simpl. split.
  - rewrite lower_idempotent. reflexivity.
  - rewrite lower_rstrip, lower_lstrip, split_rstrip, split_lstrip.
    reflexivity.
Qed.

(** ** Headlines and entries side by side *)

(** X4: when every item of a result has a title, headline and raw entry
    stand at the same index: the headline at [i] is made of the entry at
    [i], and a headline with a link carries the very link the announcement
    reads from that entry. *)
Theorem getHeadlines_aligned_when_all_titled (r : results) (i : nat)
    (h : headline) :
  Forall (fun d => has_title d = true) (getitem_items r) ->
  getHeadlines r !! i = Some h ->
  exists d : entry,
    getitem_items r !! i = Some d
    /\ title d = Some (fst h)
    /\ (forall l : string, snd h = Some l -> dict_get (link d) "no_url" = l).
Proof.
  intros Hall Hh.
  rewrite getHeadlines_filter, (filter_all_titled _ Hall) in Hh.
  rewrite list_lookup_fmap in Hh.
  destruct (getitem_items r !! i) as [d|] eqn:Hd; [|discriminate].
  simpl in Hh. injection Hh as <-.
  exists d. split; [reflexivity|].
  rewrite Forall_lookup in Hall. specialize (Hall i d Hd).
  unfold has_title in Hall. unfold title_link. simpl.
  destruct (title d) as [t|]; [|discriminate].
  split; [reflexivity|].
  intros l. destruct (link d) as [l'|]; [|discriminate].
  destruct (Str.truthy l'); [|discriminate].
  intros H. injection H as <-. reflexivity.
Qed.

Lemma getHeadlines_aligned_when_all_titled_witness :
  exists d : entry,
    [Sample.new_item; Sample.old_item] !! 1%nat = Some d
    /\ title d = Some "Old Title"
    /\ (forall l : string,
           Some "http://x/1" = Some l -> dict_get (link d) "no_url" = l).
Proof.
  apply (getHeadlines_aligned_when_all_titled
           (Sample.parsed [Sample.new_item; Sample.old_item]) 1
           ("Old Title", Some "http://x/1")).
  - repeat constructor.
  - reflexivity.
Defined.
